(** * Walkmesh decoding and point location (ff7-ultima)

    A shallow embedding of the walkmesh module ([parseWalkmesh],
    [parseGateways], [calculateWalkmeshBounds]) and of the point-location
    helpers of the walkmesh viewer ([pointInTriangle], [calculateZAtPoint],
    [findTriangleAtPosition]), with the properties the specification
    states about them.

    Numbers.  The decoders only combine array elements with the 32-bit
    operators [|] and [<<]; these are modelled on [Z] with the ToInt32
    wrap-around written out, and an element read outside the array is
    [undefined], which both operators turn into 0.  The geometric helpers
    compute with JavaScript numbers; they are modelled with exact rational
    arithmetic ([Q]), the extended values [Infinity], [-Infinity] and [NaN]
    being kept where the source starts from them (the bounds loop).
    Decoded coordinates are 16-bit integers and the viewer queries rounded
    positions, so the sums and products of the containment test and of the
    barycentric denominator are integers far below 2^53 and exact in
    binary64 too; an integer denominator is below the epsilon 0.0001
    exactly when it is below 1/10000. *)

From Stdlib Require Import ZArith List Bool Lia QArith Qabs Qround Lqa.
Import ListNotations.

(** ** JavaScript integer operators and array reads *)

Module JS.
Local Open Scope Z_scope.

(** ToInt32: the value modulo 2^32, read as a signed 32-bit integer. *)
Definition ToInt32 (n : Z) : Z := (n + 2 ^ 31) mod 2 ^ 32 - 2 ^ 31.

(** [arr[i]]: [None] stands for [undefined] (index outside the array). *)
Definition get {A : Type} (arr : list A) (i : Z) : option A :=
  if i <? 0 then None else nth_error arr (Z.to_nat i).

(** ToInt32 of an element read: [undefined] converts to 0. *)
Definition int32_of (v : option Z) : Z :=
  match v with
  | Some n => ToInt32 n
  | None => 0
  end.

(** [a | b] *)
Definition bor (a b : Z) : Z := Z.lor (ToInt32 a) (ToInt32 b).

(** [a << k] *)
Definition shl (a k : Z) : Z := ToInt32 (Z.shiftl (ToInt32 a) (Z.land k 31)).

(** [for (let i = i0; i < bound; i++) body]: the loop state is threaded
    through [body]; [fuel] bounds the number of iterations. *)
Fixpoint for_loop {St : Type} (fuel : nat) (i bound : Z)
         (body : Z -> St -> St) (s : St) : St :=
  match fuel with
  | O => s
  | S fuel' =>
      if i <? bound then for_loop fuel' (i + 1) bound body (body i s) else s
  end.

(** JavaScript numbers as far as the bounds loop needs them: a finite
    value (an exact rational) or one of the three special values. *)
Inductive number : Type :=
| Num (q : Q)
| Infinity
| NegInfinity
| NaN.

(** [Math.min(a, b)] *)
Definition Math_min (a b : number) : number :=
  match a, b with
  | NaN, _ | _, NaN => NaN
  | NegInfinity, _ | _, NegInfinity => NegInfinity
  | Infinity, n | n, Infinity => n
  | Num p, Num q => if Qle_bool p q then Num p else Num q
  end.

(** [Math.max(a, b)] *)
Definition Math_max (a b : number) : number :=
  match a, b with
  | NaN, _ | _, NaN => NaN
  | Infinity, _ | _, Infinity => Infinity
  | NegInfinity, n | n, NegInfinity => n
  | Num p, Num q => if Qle_bool p q then Num q else Num p
  end.

(** [a + b] *)
Definition add (a b : number) : number :=
  match a, b with
  | NaN, _ | _, NaN => NaN
  | Infinity, NegInfinity | NegInfinity, Infinity => NaN
  | Infinity, _ | _, Infinity => Infinity
  | NegInfinity, _ | _, NegInfinity => NegInfinity
  | Num p, Num q => Num (p + q)%Q
  end.

(** [a / 2] *)
Definition half (a : number) : number :=
  match a with
  | Num p => Num (p / 2)%Q
  | other => other
  end.

(** [Math.round(q)] on a finite number: the nearest integer, a tie going
    up. *)
Definition Math_round (q : Q) : Z := Qfloor (q + (1 # 2))%Q.

(** [a < b] on finite numbers. *)
Definition ltb (a b : Q) : bool := negb (Qle_bool b a).

End JS.

(** ** The walkmesh module: data model and decoders *)

Module walkmesh.
Local Open Scope Z_scope.

Record WalkmeshVertex : Type := { x : Z; y : Z; z : Z }.

Record WalkmeshTriangle : Type := {
  vertices : WalkmeshVertex * WalkmeshVertex * WalkmeshVertex;
  access : Z * Z * Z
}.

Record Walkmesh : Type := {
  triangleCount : Z;
  triangles : list WalkmeshTriangle
}.

Definition length (buffer : list Z) : Z := Z.of_nat (List.length buffer).

(** The three readers are closures over [buffer] in the source. *)
Definition readInt16 (buffer : list Z) (offset : Z) : Z :=
  let val := JS.bor (JS.int32_of (JS.get buffer offset))
                    (JS.shl (JS.int32_of (JS.get buffer (offset + 1))) 8) in
  if val >? 0x7FFF then val - 0x10000 else val.

Definition readUInt16 (buffer : list Z) (offset : Z) : Z :=
  JS.bor (JS.int32_of (JS.get buffer offset))
         (JS.shl (JS.int32_of (JS.get buffer (offset + 1))) 8).

Definition readUInt32 (buffer : list Z) (offset : Z) : Z :=
  JS.bor
    (JS.bor
       (JS.bor (JS.int32_of (JS.get buffer offset))
               (JS.shl (JS.int32_of (JS.get buffer (offset + 1))) 8))
       (JS.shl (JS.int32_of (JS.get buffer (offset + 2))) 16))
    (JS.shl (JS.int32_of (JS.get buffer (offset + 3))) 24).

Definition sectorPoolOffset : Z := 4.

(** Body of the decoding loop: the triangle pushed at iteration [i]. *)
Definition triangleAt (buffer : list Z) (accessPoolOffset i : Z)
  : WalkmeshTriangle :=
  let sectorOffset := sectorPoolOffset + i * 24 in
  let accessOffset := accessPoolOffset + i * 6 in
  {| vertices :=
       ({| x := readInt16 buffer sectorOffset;
           y := readInt16 buffer (sectorOffset + 2);
           z := readInt16 buffer (sectorOffset + 4) |},
        {| x := readInt16 buffer (sectorOffset + 8);
           y := readInt16 buffer (sectorOffset + 10);
           z := readInt16 buffer (sectorOffset + 12) |},
        {| x := readInt16 buffer (sectorOffset + 16);
           y := readInt16 buffer (sectorOffset + 18);
           z := readInt16 buffer (sectorOffset + 20) |});
     access :=
       (readUInt16 buffer accessOffset,
        readUInt16 buffer (accessOffset + 2),
        readUInt16 buffer (accessOffset + 4)) |}.

Definition parseWalkmesh (buffer : list Z) : Walkmesh :=
  if length buffer <? 4 then {| triangleCount := 0; triangles := [] |}
  else
    let triangleCount := readUInt32 buffer 0 in
    if (triangleCount =? 0) || (triangleCount >? 10000)
    then {| triangleCount := 0; triangles := [] |}
    else
      let accessPoolOffset := sectorPoolOffset + triangleCount * 24 in
      let triangles :=
        JS.for_loop (Z.to_nat triangleCount) 0 triangleCount
          (fun i triangles =>
             triangles ++ [triangleAt buffer accessPoolOffset i])
          [] in
      {| triangleCount := triangleCount; triangles := triangles |}.

Record Gateway : Type := {
  vertex1 : WalkmeshVertex;
  vertex2 : WalkmeshVertex;
  fieldId : Z
}.

Definition gatewayOffset : Z := 56.

(** Body of the gateway loop; the two [continue]s leave the list as it is. *)
Definition gatewaySlot (buffer : list Z) (i : Z) (gateways : list Gateway)
  : list Gateway :=
  let offset := gatewayOffset + i * 24 in
  let fieldId := readUInt16 buffer (offset + 18) in
  if fieldId =? 0 then gateways
  else
    let vertex1 := {| x := readInt16 buffer offset;
                      y := readInt16 buffer (offset + 2);
                      z := readInt16 buffer (offset + 4) |} in
    let vertex2 := {| x := readInt16 buffer (offset + 6);
                      y := readInt16 buffer (offset + 8);
                      z := readInt16 buffer (offset + 10) |} in
    if (x vertex1 =? 0) && (y vertex1 =? 0)
       && (x vertex2 =? 0) && (y vertex2 =? 0)
    then gateways
    else gateways ++ [{| vertex1 := vertex1; vertex2 := vertex2;
                         fieldId := fieldId |}].

Definition parseGateways (buffer : list Z) : list Gateway :=
  if length buffer <? 344 then []
  else JS.for_loop 12 0 12 (gatewaySlot buffer) [].

Record Bounds : Type := {
  minX : JS.number; maxX : JS.number;
  minY : JS.number; maxY : JS.number;
  minZ : JS.number; maxZ : JS.number;
  centerX : JS.number; centerY : JS.number; centerZ : JS.number
}.

(** A decoded coordinate used as a JavaScript number. *)
Definition num (n : Z) : JS.number := JS.Num (inject_Z n).

(** The six running extrema of the bounds loop. *)
Record Extrema : Type := {
  eMinX : JS.number; eMaxX : JS.number;
  eMinY : JS.number; eMaxY : JS.number;
  eMinZ : JS.number; eMaxZ : JS.number
}.

(** Body of the inner loop [for (const v of tri.vertices)]. *)
Definition boundsVertex (e : Extrema) (v : WalkmeshVertex) : Extrema :=
  {| eMinX := JS.Math_min (eMinX e) (num (x v));
     eMaxX := JS.Math_max (eMaxX e) (num (x v));
     eMinY := JS.Math_min (eMinY e) (num (y v));
     eMaxY := JS.Math_max (eMaxY e) (num (y v));
     eMinZ := JS.Math_min (eMinZ e) (num (z v));
     eMaxZ := JS.Math_max (eMaxZ e) (num (z v)) |}.

Definition vertexList (tri : WalkmeshTriangle) : list WalkmeshVertex :=
  let '(v0, v1, v2) := vertices tri in [v0; v1; v2].

(** Body of the outer loop [for (const tri of walkmesh.triangles)]. *)
Definition boundsTriangle (e : Extrema) (tri : WalkmeshTriangle) : Extrema :=
  fold_left boundsVertex (vertexList tri) e.

Definition calculateWalkmeshBounds (walkmesh : Walkmesh) : Bounds :=
  if Z.of_nat (List.length (triangles walkmesh)) =? 0 then
    {| minX := num 0; maxX := num 0;
       minY := num 0; maxY := num 0;
       minZ := num 0; maxZ := num 0;
       centerX := num 0; centerY := num 0; centerZ := num 0 |}
  else
    let e := fold_left boundsTriangle (triangles walkmesh)
               {| eMinX := JS.Infinity; eMaxX := JS.NegInfinity;
                  eMinY := JS.Infinity; eMaxY := JS.NegInfinity;
                  eMinZ := JS.Infinity; eMaxZ := JS.NegInfinity |} in
    {| minX := eMinX e; maxX := eMaxX e;
       minY := eMinY e; maxY := eMaxY e;
       minZ := eMinZ e; maxZ := eMaxZ e;
       centerX := JS.half (JS.add (eMinX e) (eMaxX e));
       centerY := JS.half (JS.add (eMinY e) (eMaxY e));
       centerZ := JS.half (JS.add (eMinZ e) (eMaxZ e)) |}.

End walkmesh.

(** ** The viewer's point location *)

Module Query.
Import walkmesh.
Local Open Scope Q_scope.

Definition pointInTriangle (px py v0x v0y v1x v1y v2x v2y : Q) : bool :=
  let dX := px - v2x in
  let dY := py - v2y in
  let dX21 := v2x - v1x in
  let dY12 := v1y - v2y in
  let D := dY12 * (v0x - v2x) + dX21 * (v0y - v2y) in
  let s := dY12 * dX + dX21 * dY in
  let t := (v2y - v0y) * dX + (v0x - v2x) * dY in
  if JS.ltb D 0 then Qle_bool s 0 && Qle_bool t 0 && Qle_bool D (s + t)
  else Qle_bool 0 s && Qle_bool 0 t && Qle_bool (s + t) D.

(** A vertex with its coordinates as numbers. *)
Definition vx (v : WalkmeshVertex) : Q := inject_Z (walkmesh.x v).
Definition vy (v : WalkmeshVertex) : Q := inject_Z (walkmesh.y v).
Definition vz (v : WalkmeshVertex) : Q := inject_Z (walkmesh.z v).

Definition calculateZAtPoint (x y : Q) (tri : WalkmeshTriangle) : Q :=
  let '(v0, v1, v2) := vertices tri in
  let denom := (vy v1 - vy v2) * (vx v0 - vx v2)
               + (vx v2 - vx v1) * (vy v0 - vy v2) in
  if JS.ltb (Qabs denom) (1 # 10000) then (vz v0 + vz v1 + vz v2) / 3
  else
    let w0 := ((vy v1 - vy v2) * (x - vx v2)
               + (vx v2 - vx v1) * (y - vy v2)) / denom in
    let w1 := ((vy v2 - vy v0) * (x - vx v2)
               + (vx v0 - vx v2) * (y - vy v2)) / denom in
    let w2 := 1 - w0 - w1 in
    w0 * vz v0 + w1 * vz v1 + w2 * vz v2.

Record TriangleInfo : Type := { triangleId : Z; z : Z }.

(** The scan [for (let i = 0; i < walkmesh.triangles.length; i++)] with its
    early return: [rest] holds the triangles from index [i] on. *)
Fixpoint scanFrom (rest : list WalkmeshTriangle) (i : Z) (x y : Q)
  : TriangleInfo :=
  match rest with
  | [] => {| triangleId := (-1)%Z; z := 0%Z |}
  | tri :: rest' =>
      let '(v0, v1, v2) := vertices tri in
      if pointInTriangle x y (vx v0) (vy v0) (vx v1) (vy v1) (vx v2) (vy v2)
      then {| triangleId := i;
              z := JS.Math_round (calculateZAtPoint x y tri) |}
      else scanFrom rest' (i + 1)%Z x y
  end.

Definition findTriangleAtPosition (walkmesh : Walkmesh) (x y : Q)
  : TriangleInfo :=
  scanFrom (triangles walkmesh) 0%Z x y.

End Query.


(** ** The binary layout in the specification's words

    The layout is stated arithmetically (bytes weighted by powers of 256),
    independently of the bit operators of the decoder. *)

Module Layout.
Import walkmesh.
Local Open Scope Z_scope.

(** A buffer of bytes: every element is in 0..255. *)
Definition is_bytes (buffer : list Z) : Prop :=
  forallb (fun b => (0 <=? b) && (b <=? 255)) buffer = true.

(** The byte stored at offset [o]; 0 past the end. *)
Definition byte_at (buffer : list Z) (o : Z) : Z := nth (Z.to_nat o) buffer 0.

(** Little-endian unsigned 16-bit and 32-bit words. *)
Definition word16 (buffer : list Z) (o : Z) : Z :=
  byte_at buffer o + 256 * byte_at buffer (o + 1).

Definition word32 (buffer : list Z) (o : Z) : Z :=
  byte_at buffer o + 256 * byte_at buffer (o + 1)
  + 65536 * byte_at buffer (o + 2) + 16777216 * byte_at buffer (o + 3).

(** Two's-complement reading of a 16-bit word. *)
Definition signed16 (w : Z) : Z := if 0x8000 <=? w then w - 0x10000 else w.

(** Offset of vertex [j] of triangle [i], and of the access value of edge
    [e] of triangle [i] in a walkmesh of [N] triangles. *)
Definition vertex_offset (i j : Z) : Z := 4 + i * 24 + j * 8.
Definition access_offset (N i e : Z) : Z := (4 + N * 24) + i * 6 + 2 * e.

(** Vertex [v] is stored at offset [o] as three signed 16-bit words. *)
Definition vertex_stored (buffer : list Z) (o : Z) (v : WalkmeshVertex)
  : Prop :=
  signed16 (word16 buffer o) = x v /\
  signed16 (word16 buffer (o + 2)) = y v /\
  signed16 (word16 buffer (o + 4)) = z v.

(** Vertex [j] and the access value of edge [e] of a triangle, for [j] and
    [e] in 0..2. *)
Definition vertexOf (tri : WalkmeshTriangle) (j : Z) : WalkmeshVertex :=
  let '(v0, v1, v2) := vertices tri in
  if j =? 0 then v0 else if j =? 1 then v1 else v2.

Definition accessOf (tri : WalkmeshTriangle) (e : Z) : Z :=
  let '(a0, a1, a2) := access tri in
  if e =? 0 then a0 else if e =? 1 then a1 else a2.

(** Triangle [tri] is stored as triangle [i] of [N]. *)
Definition triangle_stored (buffer : list Z) (N i : Z)
           (tri : WalkmeshTriangle) : Prop :=
  forall j : Z, 0 <= j < 3 ->
    vertex_stored buffer (vertex_offset i j) (vertexOf tri j) /\
    word16 buffer (access_offset N i j) = accessOf tri j.

(** The buffer encodes the triangles [tris], in this order. *)
Definition encodes (buffer : list Z) (tris : list WalkmeshTriangle) : Prop :=
  let N := Z.of_nat (List.length tris) in
  word32 buffer 0 = N /\
  forall (i : nat) (tri : WalkmeshTriangle),
    nth_error tris i = Some tri ->
    triangle_stored buffer N (Z.of_nat i) tri.

(** The twelve 16-bit fields of triangle [i] of [N]: the offset of each
    field with the component of the triangle it fills. *)
Definition fields (N i : Z) : list (Z * (WalkmeshTriangle -> Z)) :=
  flat_map
    (fun j =>
       [(vertex_offset i j, fun tri => x (vertexOf tri j));
        (vertex_offset i j + 2, fun tri => y (vertexOf tri j));
        (vertex_offset i j + 4, fun tri => z (vertexOf tri j));
        (access_offset N i j, fun tri => accessOf tri j)])
    [0; 1; 2].

(** Gateway slot [i]: 24 bytes from offset 56 + i*24, with vertex1 at
    +0/+2/+4, vertex2 at +6/+8/+10 and the field identifier at +18. *)
Definition slot_offset (i : Z) : Z := 56 + i * 24.

Definition slot_gateway (buffer : list Z) (i : Z) : Gateway :=
  let o := slot_offset i in
  {| vertex1 := {| x := signed16 (word16 buffer o);
                   y := signed16 (word16 buffer (o + 2));
                   z := signed16 (word16 buffer (o + 4)) |};
     vertex2 := {| x := signed16 (word16 buffer (o + 6));
                   y := signed16 (word16 buffer (o + 8));
                   z := signed16 (word16 buffer (o + 10)) |};
     fieldId := word16 buffer (o + 18) |}.

(** A slot is kept when its field identifier is nonzero and the x and y of
    its two vertices are not all four zero. *)
Definition slot_kept (g : Gateway) : bool :=
  negb (fieldId g =? 0)
  && negb ((x (vertex1 g) =? 0) && (y (vertex1 g) =? 0)
           && (x (vertex2 g) =? 0) && (y (vertex2 g) =? 0)).

(** Every vertex of every triangle of a walkmesh. *)
Definition allVertices (walkmesh : Walkmesh) : list WalkmeshVertex :=
  flat_map vertexList (triangles walkmesh).

(** [m] is the least, respectively the greatest, element of [l]. *)
Definition is_minimum (m : Z) (l : list Z) : Prop :=
  In m l /\ forall k, In k l -> m <= k.

Definition is_maximum (m : Z) (l : list Z) : Prop :=
  In m l /\ forall k, In k l -> k <= m.

(** [lo], [hi] and [c] are the bounds of one axis: the minimum and the
    maximum of the coordinate [coord] over all vertices, and their
    midpoint. *)
Definition axis_bounds (coord : WalkmeshVertex -> Z) (walkmesh : Walkmesh)
           (lo hi c : JS.number) : Prop :=
  exists m M : Z,
    is_minimum m (map coord (allVertices walkmesh)) /\
    is_maximum M (map coord (allVertices walkmesh)) /\
    lo = num m /\ hi = num M /\
    c = JS.Num ((inject_Z m + inject_Z M) / 2)%Q.

(** The running minimum (maximum) after the vertices [l]: the start value
    when none has been seen. *)
Definition running_min (n : JS.number) (l : list Z) : Prop :=
  (l = [] /\ n = JS.Infinity) \/ (exists m, is_minimum m l /\ n = num m).

Definition running_max (n : JS.number) (l : list Z) : Prop :=
  (l = [] /\ n = JS.NegInfinity) \/ (exists m, is_maximum m l /\ n = num m).

(** The indices [i, i+1, ..., i+n-1] a counting loop goes through. *)
Fixpoint upto (n : nat) (i : Z) : list Z :=
  match n with
  | O => []
  | S n' => i :: upto n' (i + 1)
  end.

End Layout.

(** ** Triangles in the plane, in the specification's words *)

Module Geometry.
Import walkmesh.
Local Open Scope Q_scope.

(** The signed area term [D] of a triangle on the x and y axes (the
    barycentric denominator). *)
Definition signedArea (v0x v0y v1x v1y v2x v2y : Q) : Q :=
  (v1y - v2y) * (v0x - v2x) + (v2x - v1x) * (v0y - v2y).

(** [a], [b], [c] are barycentric weights of the point against the three
    vertices: they sum to 1 and combine the vertices into the point. *)
Definition weights (px py v0x v0y v1x v1y v2x v2y a b c : Q) : Prop :=
  a + b + c == 1 /\
  px == a * v0x + b * v1x + c * v2x /\
  py == a * v0y + b * v1y + c * v2y.

(** The closed triangle: the points with nonnegative weights. *)
Definition in_closed_triangle (px py v0x v0y v1x v1y v2x v2y : Q) : Prop :=
  exists a b c : Q,
    0 <= a /\ 0 <= b /\ 0 <= c /\
    weights px py v0x v0y v1x v1y v2x v2y a b c.


(** The containment test of the scan, applied to a walkmesh triangle. *)
Definition contains (tri : WalkmeshTriangle) (x y : Q) : bool :=
  let '(v0, v1, v2) := vertices tri in
  Query.pointInTriangle x y (Query.vx v0) (Query.vy v0)
                        (Query.vx v1) (Query.vy v1)
                        (Query.vx v2) (Query.vy v2).

(** The barycentric denominator of a walkmesh triangle. *)
Definition denominator (tri : WalkmeshTriangle) : Q :=
  let '(v0, v1, v2) := vertices tri in
  signedArea (Query.vx v0) (Query.vy v0) (Query.vx v1) (Query.vy v1)
             (Query.vx v2) (Query.vy v2).

(** Barycentric weights of a point against a walkmesh triangle, and the
    elevation they interpolate. *)
Definition triangle_weights (tri : WalkmeshTriangle) (x y w0 w1 w2 : Q)
  : Prop :=
  let '(v0, v1, v2) := vertices tri in
  weights x y (Query.vx v0) (Query.vy v0) (Query.vx v1) (Query.vy v1)
          (Query.vx v2) (Query.vy v2) w0 w1 w2.

Definition interpolate (tri : WalkmeshTriangle) (w0 w1 w2 : Q) : Q :=
  let '(v0, v1, v2) := vertices tri in
  w0 * Query.vz v0 + w1 * Query.vz v1 + w2 * Query.vz v2.

(** The unweighted average of the three elevations. *)
Definition meanElevation (tri : WalkmeshTriangle) : Q :=
  let '(v0, v1, v2) := vertices tri in
  (Query.vz v0 + Query.vz v1 + Query.vz v2) / 3.


End Geometry.

(** ** Concrete inputs used below *)

Module Examples.
Import walkmesh.
Local Open Scope Z_scope.

(** One triangle, with coordinates at both ends of the signed 16-bit range
    and a blocked edge; the padding bytes hold 9. *)
Definition oneTriangle : WalkmeshTriangle :=
  {| vertices := ({| x := 1; y := 2; z := -1 |},
                  {| x := -32768; y := 32767; z := 3 |},
                  {| x := 4; y := 5; z := 6 |});
     access := (0xFFFF, 1, 7) |}.

Definition oneTriangleBuffer : list Z :=
  [1; 0; 0; 0;
   1; 0; 2; 0; 255; 255; 9; 9;
   0; 128; 255; 127; 3; 0; 9; 9;
   4; 0; 5; 0; 6; 0; 9; 9;
   255; 255; 1; 0; 7; 0].

(** The same walkmesh cut after the first access value. *)
Definition truncatedBuffer : list Z :=
  [1; 0; 0; 0;
   1; 0; 2; 0; 255; 255; 9; 9;
   0; 128; 255; 127; 3; 0; 9; 9;
   4; 0; 5; 0; 6; 0; 9; 9;
   255; 255].

(** A gateway table: slot 0 is kept, slot 1 has field identifier 0, slot 2
    has only its z coordinates nonzero, slot 3 is kept, the others are
    empty. *)
Definition gatewaysBuffer : list Z :=
  repeat 0 56
  ++ [251; 255; 0; 0; 8; 0;  0; 0; 0; 0; 0; 0;  0; 0; 0; 0; 0; 0;  44; 1;
      0; 0; 0; 0]
  ++ [1; 0; 2; 0; 3; 0;  4; 0; 5; 0; 6; 0;  0; 0; 0; 0; 0; 0;  0; 0;
      0; 0; 0; 0]
  ++ [0; 0; 0; 0; 9; 0;  0; 0; 0; 0; 9; 0;  0; 0; 0; 0; 0; 0;  7; 0;
      0; 0; 0; 0]
  ++ [0; 0; 0; 0; 0; 0;  0; 0; 0; 128; 0; 0;  0; 0; 0; 0; 0; 0;  255; 255;
      0; 0; 0; 0]
  ++ repeat 0 (8 * 24).

(** Two triangles whose vertices span x in [-50, 150]. *)
Definition spanning : Walkmesh :=
  {| triangleCount := 2;
     triangles :=
       [{| vertices := ({| x := -50; y := 0; z := 4 |},
                        {| x := 20; y := 30; z := -8 |},
                        {| x := 0; y := 7; z := 0 |});
           access := (1, 0xFFFF, 0xFFFF) |};
        {| vertices := ({| x := 20; y := 30; z := -8 |},
                        {| x := 150; y := -3; z := 1 |},
                        {| x := 0; y := 7; z := 0 |});
           access := (0, 0xFFFF, 0xFFFF) |}] |}.

(** The triangle (0,0,0), (10,0,0), (0,10,30), alone in a walkmesh. *)
Definition slope : WalkmeshTriangle :=
  {| vertices := ({| x := 0; y := 0; z := 0 |},
                  {| x := 10; y := 0; z := 0 |},
                  {| x := 0; y := 10; z := 30 |});
     access := (0xFFFF, 0xFFFF, 0xFFFF) |}.

Definition slopeMesh : Walkmesh :=
  {| triangleCount := 1; triangles := [slope] |}.

(** Three collinear vertices. *)
Definition collinear : WalkmeshTriangle :=
  {| vertices := ({| x := 0; y := 0; z := 3 |},
                  {| x := 5; y := 5; z := 6 |},
                  {| x := 10; y := 10; z := 12 |});
     access := (0xFFFF, 0xFFFF, 0xFFFF) |}.

(** A header whose top byte has its high bit set: the count 2^31. *)
Definition highCountBuffer : list Z := [0; 0; 0; 128].

End Examples.

(** ** What the decoders read, and the ranges they produce *)

Module Reads.
Import walkmesh.
Local Open Scope Z_scope.

(** Signed and unsigned 16-bit ranges. *)
Definition int16 (n : Z) : Prop := -32768 <= n <= 32767.
Definition uint16 (n : Z) : Prop := 0 <= n <= 65535.

Definition vertex_int16 (v : WalkmeshVertex) : Prop :=
  int16 (x v) /\ int16 (y v) /\ int16 (z v).

(** The offsets a walkmesh of [N] triangles is read at: the header, the
    six coordinate bytes of each vertex, and the access pool.  The two
    bytes after each vertex and everything from 4 + N*30 on are left
    out. *)
Definition walkmesh_offset (N o : Z) : Prop :=
  0 <= o < 4 \/
  (exists i j k, 0 <= i < N /\ 0 <= j < 3 /\ 0 <= k < 6 /\
                 o = 4 + i * 24 + j * 8 + k) \/
  4 + N * 24 <= o < 4 + N * 30.

(** The offsets the gateway table is read at: in each of the 12 slots, the
    twelve coordinate bytes and the two bytes of the field identifier. *)
Definition gateway_offset (o : Z) : Prop :=
  exists i k, 0 <= i < 12 /\ (0 <= k < 12 \/ 18 <= k < 20) /\
              o = 56 + i * 24 + k.

(** One axis of the bounds is ordered: three finite numbers with
    lo <= c <= hi. *)
Definition ordered_axis (lo c hi : JS.number) : Prop :=
  exists a m b : Q,
    lo = JS.Num a /\ c = JS.Num m /\ hi = JS.Num b /\
    (a <= m)%Q /\ (m <= b)%Q.

(** A bound that is a signed 16-bit integer. *)
Definition int16_number (n : JS.number) : Prop :=
  exists k : Z, n = num k /\ int16 k.

(** [h] lies between the lowest and the highest of the three vertex
    elevations of [tri]. *)
Definition within_elevations (tri : WalkmeshTriangle) (h : Z) : Prop :=
  let '(v0, v1, v2) := vertices tri in
  Z.min (z v0) (Z.min (z v1) (z v2)) <= h
  <= Z.max (z v0) (Z.max (z v1) (z v2)).

End Reads.

(** ** More concrete inputs *)

Module MoreExamples.
Import walkmesh.
Local Open Scope Z_scope.

(** A header with the count 65536. *)
Definition overCeilingBuffer : list Z := [0; 0; 1; 0; 7; 7].

(** A header of four 0xFF bytes: the count 2^32 - 1. *)
Definition allOnesHeader : list Z := [255; 255; 255; 255; 1; 2; 3].

(** [Examples.oneTriangleBuffer] with other padding bytes and two more
    bytes at the end. *)
Definition oneTriangleRepadded : list Z :=
  [1; 0; 0; 0;
   1; 0; 2; 0; 255; 255; 0; 200;
   0; 128; 255; 127; 3; 0; 17; 1;
   4; 0; 5; 0; 6; 0; 255; 255;
   255; 255; 1; 0; 7; 0;
   42; 43].

(** [Examples.gatewaysBuffer] with another header region and three more
    bytes at the end. *)
Definition gatewaysReheaded : list Z :=
  repeat 7 56 ++ skipn 56 Examples.gatewaysBuffer ++ [1; 2; 3].

(** The vertices of [Examples.spanning] regrouped: other triangles, another
    order, another count. *)
Definition spanningRegrouped : Walkmesh :=
  {| triangleCount := 7;
     triangles :=
       [{| vertices := ({| x := 150; y := -3; z := 1 |},
                        {| x := 0; y := 7; z := 0 |},
                        {| x := 0; y := 7; z := 0 |});
           access := (0, 0, 0) |};
        {| vertices := ({| x := 20; y := 30; z := -8 |},
                        {| x := -50; y := 0; z := 4 |},
                        {| x := 150; y := -3; z := 1 |});
           access := (5, 6, 7) |}] |}.

End MoreExamples.

From Stdlib Require String DecimalString.

(** ** JavaScript number operators of the viewer

    The operators on [JS.number] that the viewer components use.  A finite
    zero stands for +0: the divisors that occur (a map height, a client
    height, a camera zoom after [|| 1]) are never -0. *)

Module JSNum.
Import JS.
Local Open Scope Q_scope.

(** [-a] *)
Definition neg (a : number) : number :=
  match a with
  | Num p => Num (- p)
  | Infinity => NegInfinity
  | NegInfinity => Infinity
  | NaN => NaN
  end.

(** [a - b] *)
Definition sub (a b : number) : number :=
  match a, b with
  | NaN, _ | _, NaN => NaN
  | Infinity, Infinity | NegInfinity, NegInfinity => NaN
  | Infinity, _ | _, NegInfinity => Infinity
  | NegInfinity, _ | _, Infinity => NegInfinity
  | Num p, Num q => Num (p - q)
  end.

(** An infinity multiplied by the finite number [p]. *)
Definition scaled (inf : number) (p : Q) : number :=
  if Qeq_bool p 0 then NaN else if ltb p 0 then neg inf else inf.

(** [a * b] *)
Definition mul (a b : number) : number :=
  match a, b with
  | NaN, _ | _, NaN => NaN
  | Num p, Num q => Num (p * q)
  | Num p, inf | inf, Num p => scaled inf p
  | Infinity, Infinity | NegInfinity, NegInfinity => Infinity
  | Infinity, NegInfinity | NegInfinity, Infinity => NegInfinity
  end.

(** [a / b] *)
Definition div (a b : number) : number :=
  match a, b with
  | NaN, _ | _, NaN => NaN
  | Num p, Num q =>
      if Qeq_bool q 0 then scaled Infinity p else Num (p / q)
  | Num _, _ => Num 0
  | inf, Num q => if ltb q 0 then neg inf else inf
  | _, _ => NaN
  end.

(** [a > b] *)
Definition gt (a b : number) : bool :=
  match a, b with
  | NaN, _ | _, NaN => false
  | Num p, Num q => ltb q p
  | Infinity, Infinity | NegInfinity, _ | Num _, Infinity => false
  | Infinity, _ | Num _, NegInfinity => true
  end.

(** ToBoolean of a number: 0 and NaN are falsy. *)
Definition truthy (a : number) : bool :=
  match a with
  | Num p => negb (Qeq_bool p 0)
  | Infinity | NegInfinity => true
  | NaN => false
  end.

(** [a || b] on numbers. *)
Definition or_else (a b : number) : number := if truthy a then a else b.

End JSNum.

(** ** The declarations of "@/types" the viewer uses *)

Module Types.

(** Modelled from the spec: the placeable-object record [FieldModel] is
    declared outside the files at hand; the viewer reads its position x, y,
    z and its collision radius [collision_range]. *)
Record FieldModel : Type := {
  x : Q; y : Q; z : Q;
  collision_range : Q
}.

End Types.

(** ** The mesh component: geometry arrays, labels, position updates *)

Module WalkmeshMesh.
Import walkmesh.
Local Open Scope Z_scope.

(** [arr.push(a, b, ...)] *)
Definition push {A : Type} (arr items : list A) : list A := arr ++ items.

(** The three numbers pushed for a vertex: [v.x, v.z, -v.y]. *)
Definition scene (v : WalkmeshVertex) : list Z := [x v; z v; - y v].

(** State of the loop that builds the surface geometry. *)
Record MeshArrays : Type := {
  positions : list Z;
  indices : list Z;
  colors : list Q;
  vertexIndex : Z
}.

(** Body of [for (const vertex of triangle.vertices)]. *)
Definition geometryVertex (a : MeshArrays) (vertex : WalkmeshVertex)
  : MeshArrays :=
  {| positions := push (positions a) [x vertex; z vertex; - y vertex];
     indices := indices a;
     colors := push (colors a) [0.118; 0.161; 0.231]%Q;
     vertexIndex := vertexIndex a |}.

(** Body of [for (const triangle of walkmesh.triangles)]. *)
Definition geometryTriangle (a : MeshArrays) (triangle : WalkmeshTriangle)
  : MeshArrays :=
  let a := fold_left geometryVertex (vertexList triangle) a in
  {| positions := positions a;
     indices := push (indices a)
                     [vertexIndex a; vertexIndex a + 1; vertexIndex a + 2];
     colors := colors a;
     vertexIndex := vertexIndex a + 3 |}.

(** The arrays handed to the surface geometry. *)
Definition geometry (walkmesh : Walkmesh) : MeshArrays :=
  fold_left geometryTriangle (triangles walkmesh)
            {| positions := []; indices := []; colors := [];
               vertexIndex := 0 |}.

(** [edgeGeometry]: the positions of the three line segments of each
    triangle. *)
Definition edgeTriangle (positions : list Z) (triangle : WalkmeshTriangle)
  : list Z :=
  let '(v0, v1, v2) := vertices triangle in
  let positions := push positions (scene v0) in
  let positions := push positions (scene v1) in
  let positions := push positions (scene v1) in
  let positions := push positions (scene v2) in
  let positions := push positions (scene v2) in
  push positions (scene v0).

Definition edgeGeometry (walkmesh : Walkmesh) : list Z :=
  fold_left edgeTriangle (triangles walkmesh) [].

(** [blockedEdgeGeometry]: the segments of the edges whose access value is
    0xffff. *)
Definition blockedTriangle (positions : list Z) (triangle : WalkmeshTriangle)
  : list Z :=
  let '(v0, v1, v2) := vertices triangle in
  let '(a0, a1, a2) := access triangle in
  let positions :=
    if a0 =? 0xffff
    then push (push positions (scene v0)) (scene v1) else positions in
  let positions :=
    if a1 =? 0xffff
    then push (push positions (scene v1)) (scene v2) else positions in
  if a2 =? 0xffff
  then push (push positions (scene v2)) (scene v0) else positions.

Definition blockedEdgeGeometry (walkmesh : Walkmesh) : list Z :=
  fold_left blockedTriangle (triangles walkmesh) [].

(** [gatewayQuadsGeometry]: a square of side 2 * QUAD_SIZE around each
    gateway vertex, as two index triples. *)
Definition QUAD_SIZE : Z := 20.

Record QuadArrays : Type := {
  quadPositions : list Z;
  quadIndices : list Z;
  quadVertexIndex : Z
}.

Definition quadVertex (a : QuadArrays) (vertex : WalkmeshVertex) : QuadArrays :=
  let x := walkmesh.x vertex in
  let y := walkmesh.z vertex in
  let z := - walkmesh.y vertex in
  let positions := push (quadPositions a)
                        [x - QUAD_SIZE; y + 5; z - QUAD_SIZE] in
  let positions := push positions [x + QUAD_SIZE; y + 5; z - QUAD_SIZE] in
  let positions := push positions [x + QUAD_SIZE; y + 5; z + QUAD_SIZE] in
  let positions := push positions [x - QUAD_SIZE; y + 5; z + QUAD_SIZE] in
  let vertexIndex := quadVertexIndex a in
  let indices := push (quadIndices a)
                      [vertexIndex; vertexIndex + 1; vertexIndex + 2] in
  let indices := push indices
                      [vertexIndex; vertexIndex + 2; vertexIndex + 3] in
  {| quadPositions := positions;
     quadIndices := indices;
     quadVertexIndex := vertexIndex + 4 |}.

Definition quadGateway (a : QuadArrays) (gateway : Gateway) : QuadArrays :=
  fold_left quadVertex [vertex1 gateway; vertex2 gateway] a.

Definition gatewayQuadsGeometry (gateways : list Gateway) : QuadArrays :=
  fold_left quadGateway gateways
            {| quadPositions := []; quadIndices := [];
               quadVertexIndex := 0 |}.





(** The scale of the label sprites for a camera zoom. *)
Definition BASE_SPRITE_SCALE : JS.number := JS.Num 80.
Definition MIN_SPRITE_SCALE : JS.number := JS.Num 15.
Definition MAX_SPRITE_SCALE : JS.number := JS.Num 100.

Definition spriteScale (cameraZoom : JS.number) : JS.number :=
  let zoom := JSNum.or_else cameraZoom (JS.Num 1) in
  let rawScale := JSNum.div BASE_SPRITE_SCALE zoom in
  JS.Math_max MIN_SPRITE_SCALE (JS.Math_min MAX_SPRITE_SCALE rawScale).

(** [DraggableModel]: the group is placed at [model.x, model.z, -model.y],
    and a position update reports the rounded position with the triangle
    and the elevation found there.  [None] stands for a group that is not
    mounted. *)
Definition groupPosition (model : Types.FieldModel) : Q * Q * Q :=
  (Types.x model, Types.z model, (- Types.y model)%Q).

Record PositionUpdate : Type := {
  index : Z;
  newX : Z;
  newY : Z;
  newZ : Z;
  triangleId : Z
}.

Definition sendPositionUpdate (walkmesh : Walkmesh) (index : Z)
           (current : option (Q * Q * Q)) : option PositionUpdate :=
  match current with
  | None => None
  | Some (px, _, pz) =>
      let newX := JS.Math_round px in
      let newY := JS.Math_round (- pz)%Q in
      let info := Query.findTriangleAtPosition walkmesh (inject_Z newX)
                                               (inject_Z newY) in
      Some {| index := index; newX := newX; newY := newY;
              newZ := Query.z info;
              triangleId := Query.triangleId info |}
  end.

End WalkmeshMesh.

(** ** The viewer component: map dimensions and camera frustum *)

Module WalkmeshViewer.
Import walkmesh.
Local Open Scope Q_scope.

Definition CAMERA_HEIGHT : JS.number := JS.Num 10000.
Definition SCALE : JS.number := JS.Num 1.

(** [bounds]: [null] without a walkmesh. *)
Definition bounds (walkmesh : option Walkmesh) : option Bounds :=
  match walkmesh with
  | None => None
  | Some walkmesh => Some (calculateWalkmeshBounds walkmesh)
  end.

Record MapDimensions : Type := {
  width : JS.number;
  height : JS.number;
  center : JS.number * JS.number * JS.number
}.

Definition mapDimensions (bounds : option Bounds) : MapDimensions :=
  match bounds with
  | None =>
      {| width := JS.Num 0; height := JS.Num 0;
         center := (JS.Num 0, JS.Num 0, JS.Num 0) |}
  | Some bounds =>
      let width := JSNum.mul (JSNum.sub (maxX bounds) (minX bounds)) SCALE in
      let height := JSNum.mul (JSNum.sub (maxY bounds) (minY bounds)) SCALE in
      {| width := width;
         height := height;
         center := (JSNum.mul (centerX bounds) SCALE,
                    JSNum.mul (centerZ bounds) SCALE,
                    JSNum.mul (JSNum.neg (centerY bounds)) SCALE) |}
  end.

(** The condition under which the viewer marks itself loaded. *)
Definition loads (dimensions : MapDimensions) : bool :=
  JSNum.gt (width dimensions) (JS.Num 0).

(** The frustum that [setupCamera] and [handleResize] give the
    orthographic camera. *)
Record Frustum : Type := {
  left : JS.number;
  right : JS.number;
  top : JS.number;
  bottom : JS.number
}.

Definition frustum (clientWidth clientHeight mapWidth mapHeight : JS.number)
  : Frustum :=
  let margin := JS.Num 200 in
  let containerAspect := JSNum.div clientWidth clientHeight in
  let mapAspect := JSNum.or_else (JSNum.div mapWidth mapHeight) (JS.Num 1) in
  let halfHeight :=
    JS.add (JSNum.div (JS.Math_max mapHeight (JS.Num 500)) (JS.Num 2))
           margin in
  let halfWidth :=
    JS.add (JSNum.div (JS.Math_max mapWidth (JS.Num 500)) (JS.Num 2))
           margin in
  let '(halfWidth, halfHeight) :=
    if JSNum.gt containerAspect mapAspect
    then (JSNum.mul halfHeight containerAspect, halfHeight)
    else (halfWidth, JSNum.div halfWidth containerAspect) in
  {| left := JSNum.neg halfWidth;
     right := halfWidth;
     top := halfHeight;
     bottom := JSNum.neg halfHeight |}.

End WalkmeshViewer.

(** ** The application component: the state kept from the data events *)

Module App.
Import walkmesh.
Local Open Scope Z_scope.

(** The payload of a "field-walkmesh-data" event; a field that is missing
    at run time is [None]. *)
Module Payload.
Record FieldWalkmeshData : Type := {
  walkmeshBuffer : option (list Z);
  gatewaysBuffer : option (list Z);
  fieldModels : option (list Types.FieldModel);
  fieldName : option String.string;
  fieldId : option Z
}.
End Payload.

(** The six state variables of the component. *)
Record State : Type := {
  walkmesh : option Walkmesh;
  gateways : list Gateway;
  fieldModels : list Types.FieldModel;
  fieldName : String.string;
  fieldId : Z;
  isLoading : bool
}.

Definition initial : State :=
  {| walkmesh := None; gateways := []; fieldModels := [];
     fieldName := String.EmptyString; fieldId := 0; isLoading := true |}.

(** [buffer && buffer.length > 0] for an array that may be missing: the
    buffer when the test passes. *)
Definition nonEmpty (buffer : option (list Z)) : option (list Z) :=
  match buffer with
  | Some b => if walkmesh.length b >? 0 then Some b else None
  | None => None
  end.

(** The listener: each [if] applies one state update. *)
Definition listener (payload : option Payload.FieldWalkmeshData) (s : State)
  : State :=
  match payload with
  | None => s
  | Some data =>
      let s :=
        match nonEmpty (Payload.walkmeshBuffer data) with
        | Some b =>
            {| walkmesh := Some (parseWalkmesh b);
               gateways := gateways s; fieldModels := fieldModels s;
               fieldName := fieldName s; fieldId := fieldId s;
               isLoading := false |}
        | None => s
        end in
      let s :=
        match nonEmpty (Payload.gatewaysBuffer data) with
        | Some b =>
            {| walkmesh := walkmesh s;
               gateways := parseGateways b; fieldModels := fieldModels s;
               fieldName := fieldName s; fieldId := fieldId s;
               isLoading := isLoading s |}
        | None => s
        end in
      let s :=
        match Payload.fieldModels data with
        | Some m =>
            {| walkmesh := walkmesh s; gateways := gateways s;
               fieldModels := m;
               fieldName := fieldName s; fieldId := fieldId s;
               isLoading := isLoading s |}
        | None => s
        end in
      let s :=
        match Payload.fieldName data with
        | Some n =>
            if String.eqb n String.EmptyString then s
            else {| walkmesh := walkmesh s; gateways := gateways s;
                    fieldModels := fieldModels s; fieldName := n;
                    fieldId := fieldId s; isLoading := isLoading s |}
        | None => s
        end in
      match Payload.fieldId data with
      | Some i =>
          if i =? 0 then s
          else {| walkmesh := walkmesh s; gateways := gateways s;
                  fieldModels := fieldModels s; fieldName := fieldName s;
                  fieldId := i; isLoading := isLoading s |}
      | None => s
      end
  end.

(** The state after a sequence of events, from the initial state. *)
Definition after (events : list (option Payload.FieldWalkmeshData)) : State :=
  fold_left (fun s payload => listener payload s) events initial.

(** The first buffer of a kind that is non-empty, and the last one. *)
Fixpoint firstNonEmpty
         (select : Payload.FieldWalkmeshData -> option (list Z))
         (events : list (option Payload.FieldWalkmeshData))
  : option (list Z) :=
  match events with
  | [] => None
  | payload :: events' =>
      match payload with
      | Some data =>
          match nonEmpty (select data) with
          | Some b => Some b
          | None => firstNonEmpty select events'
          end
      | None => firstNonEmpty select events'
      end
  end.

Definition lastNonEmpty
           (select : Payload.FieldWalkmeshData -> option (list Z))
           (events : list (option Payload.FieldWalkmeshData))
  : option (list Z) :=
  firstNonEmpty select (rev events).

End App.

(** ** The mesh arrays in terms of the walkmesh *)

Module MeshSpec.
Import walkmesh.
Local Open Scope Z_scope.

(** Edge [e] of a triangle joins vertex [e] to vertex [(e + 1) mod 3] and
    carries the access value [e]. *)
Definition edgesOf (tri : WalkmeshTriangle)
  : list (WalkmeshVertex * WalkmeshVertex * Z) :=
  map (fun e => (Layout.vertexOf tri e, Layout.vertexOf tri ((e + 1) mod 3),
                 Layout.accessOf tri e))
      [0; 1; 2].

(** The six numbers of the line segment of an edge. *)
Definition segment (edge : WalkmeshVertex * WalkmeshVertex * Z) : list Z :=
  let '(a, b, _) := edge in WalkmeshMesh.scene a ++ WalkmeshMesh.scene b.

(** An edge is blocked when its access value is 0xFFFF. *)
Definition blocked (edge : WalkmeshVertex * WalkmeshVertex * Z) : bool :=
  let '(_, _, a) := edge in a =? 0xFFFF.

(** An index refers to one of the vertices stored in a position array
    (three numbers per vertex). *)
Definition valid_index (positions : list Z) (idx : Z) : Prop :=
  0 <= idx /\ 3 * idx + 2 < Z.of_nat (List.length positions).

(** After [k] gateway vertices the arrays hold [k] quads: twelve numbers
    and six indices each, the indices below the next vertex index. *)
Definition quads_invariant (a : WalkmeshMesh.QuadArrays) (k : nat) : Prop :=
  List.length (WalkmeshMesh.quadPositions a) = (12 * k)%nat /\
  List.length (WalkmeshMesh.quadIndices a) = (6 * k)%nat /\
  WalkmeshMesh.quadVertexIndex a = 4 * Z.of_nat k /\
  forall idx, In idx (WalkmeshMesh.quadIndices a) ->
              0 <= idx < 4 * Z.of_nat k.


End MeshSpec.

(** ** Concrete inputs of the components *)

Module ComponentExamples.

(** A model standing at (2, 7) with elevation 21 and no collision radius
    of its own. *)
Definition npc : Types.FieldModel :=
  {| Types.x := 2; Types.y := 7; Types.z := 21;
     Types.collision_range := 0 |}.

End ComponentExamples.

(** ** Integer operators on bytes *)

Section BitLemmas.
Local Open Scope Z_scope.

Lemma ToInt32_small (n : Z) :
  - 2 ^ 31 <= n < 2 ^ 31 -> JS.ToInt32 n = n.
Proof.
  intros H. unfold JS.ToInt32.
  rewrite Z.mod_small; lia.
Qed.

Lemma ToInt32_range (n : Z) : - 2 ^ 31 <= JS.ToInt32 n < 2 ^ 31.
Proof.
  unfold JS.ToInt32.
  pose proof (Z.mod_pos_bound (n + 2 ^ 31) (2 ^ 32) ltac:(lia)). lia.
Qed.

(** Bits that do not overlap add up. *)
Lemma lor_shiftl_add (a b k : Z) :
  0 <= k -> 0 <= a < 2 ^ k -> Z.lor a (Z.shiftl b k) = a + b * 2 ^ k.
Proof.
  intros Hk Ha.
  assert (Hland : Z.land a (Z.shiftl b k) = 0).
  { apply Z.bits_inj'. intros n Hn.
    rewrite Z.land_spec, Z.bits_0.
    destruct (Z.lt_ge_cases n k) as [Hlt | Hge].
    - rewrite Z.shiftl_spec_low by assumption. apply andb_false_r.
    - replace (Z.testbit a n) with false; [reflexivity|].
      symmetry. rewrite <- (Z.mod_small a (2 ^ k)) by assumption.
      apply Z.mod_pow2_bits_high. lia. }
  rewrite <- Z.lxor_lor by assumption.
  rewrite <- Z.add_nocarry_lxor by assumption.
  rewrite Z.shiftl_mul_pow2 by assumption. reflexivity.
Qed.

End BitLemmas.

(** ** The readers on byte buffers *)

Section Readers.
Local Open Scope Z_scope.
Import Layout.

Variable buffer : list Z.
Hypothesis Hbytes : is_bytes buffer.

Lemma is_bytes_Forall : Forall (fun b => 0 <= b <= 255) buffer.
Proof.
  apply Forall_forall. intros b Hin.
  unfold is_bytes in Hbytes. rewrite forallb_forall in Hbytes.
  specialize (Hbytes b Hin). lia.
Qed.

Lemma byte_at_range (o : Z) : 0 <= byte_at buffer o <= 255.
Proof.
  unfold byte_at.
  destruct (nth_in_or_default (Z.to_nat o) buffer 0) as [Hin | Hd].
  - pose proof is_bytes_Forall as HF. rewrite Forall_forall in HF.
    apply HF, Hin.
  - rewrite Hd. lia.
Qed.

(** An element read through the operators is the stored byte, and 0 when
    the offset is past the end. *)
Lemma int32_of_get (o : Z) :
  0 <= o -> JS.int32_of (JS.get buffer o) = byte_at buffer o.
Proof.
  intros Ho. unfold JS.get, byte_at.
  destruct (Z.ltb_spec o 0) as [Hneg | _]; [lia|].
  destruct (nth_error buffer (Z.to_nat o)) as [b|] eqn:E; cbn.
  - rewrite (nth_error_nth _ _ 0 E).
    apply ToInt32_small.
    pose proof is_bytes_Forall as HF. rewrite Forall_forall in HF.
    specialize (HF b (nth_error_In _ _ E)). lia.
  - apply nth_error_None in E. symmetry. apply nth_overflow, E.
Qed.

Lemma shl_byte_8 (b : Z) : 0 <= b <= 255 -> JS.shl b 8 = Z.shiftl b 8.
Proof.
  intros Hb. unfold JS.shl. change (Z.land 8 31) with 8.
  rewrite (ToInt32_small b) by lia.
  apply ToInt32_small. rewrite Z.shiftl_mul_pow2 by lia. lia.
Qed.

Lemma shl_byte_16 (b : Z) : 0 <= b <= 255 -> JS.shl b 16 = Z.shiftl b 16.
Proof.
  intros Hb. unfold JS.shl. change (Z.land 16 31) with 16.
  rewrite (ToInt32_small b) by lia.
  apply ToInt32_small. rewrite Z.shiftl_mul_pow2 by lia. lia.
Qed.

(** The top byte is shifted into the sign bit: from 128 on the result is
    negative. *)
Lemma shl_byte_24 (b : Z) :
  0 <= b <= 255 ->
  JS.shl b 24 = Z.shiftl (if b <? 128 then b else b - 256) 24.
Proof.
  intros Hb. unfold JS.shl. change (Z.land 24 31) with 24.
  rewrite (ToInt32_small b) by lia.
  rewrite !Z.shiftl_mul_pow2 by lia.
  destruct (Z.ltb_spec b 128).
  - apply ToInt32_small. lia.
  - unfold JS.ToInt32.
    replace (b * 2 ^ 24 + 2 ^ 31) with ((b * 2 ^ 24 - 2 ^ 31) + 1 * 2 ^ 32)
      by lia.
    rewrite Z.mod_add by lia. rewrite Z.mod_small by lia. lia.
Qed.

Lemma bor_shiftl_add (a b k : Z) :
  0 <= k <= 31 -> 0 <= a < 2 ^ k -> - 2 ^ 31 <= b * 2 ^ k < 2 ^ 31 ->
  JS.bor a (Z.shiftl b k) = a + b * 2 ^ k.
Proof.
  intros Hk Ha Hb. unfold JS.bor.
  assert (2 ^ k <= 2 ^ 31) by (apply Z.pow_le_mono_r; lia).
  rewrite (ToInt32_small a) by lia.
  rewrite (ToInt32_small (Z.shiftl b k))
    by (rewrite Z.shiftl_mul_pow2; lia).
  apply lor_shiftl_add; lia.
Qed.

Lemma readUInt16_word16 (o : Z) :
  0 <= o -> walkmesh.readUInt16 buffer o = word16 buffer o.
Proof.
  intros Ho. unfold walkmesh.readUInt16, word16.
  rewrite !int32_of_get by lia.
  pose proof (byte_at_range o) as H0.
  pose proof (byte_at_range (o + 1)) as H1.
  rewrite shl_byte_8 by assumption.
  rewrite bor_shiftl_add; lia.
Qed.

Lemma word16_range (o : Z) : 0 <= word16 buffer o <= 65535.
Proof.
  unfold word16.
  pose proof (byte_at_range o). pose proof (byte_at_range (o + 1)). lia.
Qed.

Lemma readInt16_signed16 (o : Z) :
  0 <= o -> walkmesh.readInt16 buffer o = signed16 (word16 buffer o).
Proof.
  intros Ho. unfold walkmesh.readInt16.
  fold (walkmesh.readUInt16 buffer o).
  rewrite readUInt16_word16 by assumption.
  unfold signed16. change 0x7FFF with 32767. change 0x8000 with 32768.
  destruct (Z.gtb_spec (word16 buffer o) 32767);
    destruct (Z.leb_spec 32768 (word16 buffer o)); lia.
Qed.

(** The 32-bit read is the little-endian word wrapped to a signed 32-bit
    integer. *)
Lemma readUInt32_word32 (o : Z) :
  0 <= o -> walkmesh.readUInt32 buffer o = JS.ToInt32 (word32 buffer o).
Proof.
  intros Ho. unfold walkmesh.readUInt32, word32.
  rewrite !int32_of_get by lia.
  pose proof (byte_at_range o) as H0.
  pose proof (byte_at_range (o + 1)) as H1.
  pose proof (byte_at_range (o + 2)) as H2.
  pose proof (byte_at_range (o + 3)) as H3.
  rewrite shl_byte_8, shl_byte_16, shl_byte_24 by assumption.
  set (b0 := byte_at buffer o) in *.
  set (b1 := byte_at buffer (o + 1)) in *.
  set (b2 := byte_at buffer (o + 2)) in *.
  set (b3 := byte_at buffer (o + 3)) in *.
  set (t := if b3 <? 128 then b3 else b3 - 256).
  assert (Ht : - 128 <= t <= 127)
    by (subst t; destruct (Z.ltb_spec b3 128); lia).
  assert (E1 : JS.bor b0 (Z.shiftl b1 8) = b0 + b1 * 2 ^ 8).
  { apply bor_shiftl_add; lia. }
  rewrite E1.
  assert (E2 : JS.bor (b0 + b1 * 2 ^ 8) (Z.shiftl b2 16)
               = b0 + b1 * 2 ^ 8 + b2 * 2 ^ 16).
  { apply bor_shiftl_add; lia. }
  rewrite E2.
  assert (E3 : JS.bor (b0 + b1 * 2 ^ 8 + b2 * 2 ^ 16) (Z.shiftl t 24)
               = b0 + b1 * 2 ^ 8 + b2 * 2 ^ 16 + t * 2 ^ 24).
  { apply bor_shiftl_add; lia. }
  rewrite E3.
  subst t. destruct (Z.ltb_spec b3 128).
  - rewrite ToInt32_small; lia.
  - unfold JS.ToInt32.
    replace (b0 + 256 * b1 + 65536 * b2 + 16777216 * b3 + 2 ^ 31)
      with ((b0 + b1 * 2 ^ 8 + b2 * 2 ^ 16 + (b3 - 256) * 2 ^ 24 + 2 ^ 31)
            + 1 * 2 ^ 32) by lia.
    rewrite Z.mod_add by lia. rewrite Z.mod_small by lia. lia.
Qed.

Lemma word32_range (o : Z) : 0 <= word32 buffer o < 2 ^ 32.
Proof.
  unfold word32.
  pose proof (byte_at_range o). pose proof (byte_at_range (o + 1)).
  pose proof (byte_at_range (o + 2)). pose proof (byte_at_range (o + 3)).
  lia.
Qed.

Lemma readUInt32_small (o : Z) :
  0 <= o -> word32 buffer o < 2 ^ 31 ->
  walkmesh.readUInt32 buffer o = word32 buffer o.
Proof.
  intros Ho Hs. rewrite readUInt32_word32 by assumption.
  pose proof (word32_range o). apply ToInt32_small. lia.
Qed.

Lemma readUInt32_large (o : Z) :
  0 <= o -> 2 ^ 31 <= word32 buffer o ->
  walkmesh.readUInt32 buffer o = word32 buffer o - 2 ^ 32.
Proof.
  intros Ho Hs. rewrite readUInt32_word32 by assumption.
  pose proof (word32_range o). unfold JS.ToInt32.
  replace (word32 buffer o + 2 ^ 31)
    with ((word32 buffer o - 2 ^ 31) + 1 * 2 ^ 32) by lia.
  rewrite Z.mod_add by lia. rewrite Z.mod_small by lia. lia.
Qed.

End Readers.

(** ** Counting loops *)

Section Loops.
Local Open Scope Z_scope.
Import Layout.

Lemma length_upto (n : nat) (i : Z) : List.length (upto n i) = n.
Proof.
  revert i. induction n as [|n IH]; intros i; cbn; [|rewrite IH]; reflexivity.
Qed.

Lemma nth_error_upto (n k : nat) (i : Z) :
  (k < n)%nat -> nth_error (upto n i) k = Some (i + Z.of_nat k).
Proof.
  revert k i. induction n as [|n IH]; intros k i Hk; [lia|].
  destruct k as [|k]; cbn [upto nth_error].
  - f_equal. lia.
  - rewrite IH by lia. f_equal. lia.
Qed.

Lemma in_upto (n : nat) (i k : Z) :
  In k (upto n i) <-> i <= k < i + Z.of_nat n.
Proof.
  revert i. induction n as [|n IH]; intros i; cbn [upto In].
  - lia.
  - rewrite IH. lia.
Qed.

(** With enough fuel the loop runs through exactly the indices below the
    bound, and stops because its condition fails. *)
Lemma for_loop_upto {St : Type} (body : Z -> St -> St) (fuel : nat) :
  forall (i bound : Z) (s : St),
    bound - i <= Z.of_nat fuel ->
    JS.for_loop fuel i bound body s
    = fold_left (fun s k => body k s) (upto (Z.to_nat (bound - i)) i) s.
Proof.
  induction fuel as [|fuel IH]; intros i bound s Hfuel; cbn [JS.for_loop].
  - replace (Z.to_nat (bound - i)) with O by lia. reflexivity.
  - destruct (Z.ltb_spec i bound) as [Hlt | Hge].
    + rewrite IH by lia.
      replace (Z.to_nat (bound - i)) with (S (Z.to_nat (bound - (i + 1))))
        by lia.
      reflexivity.
    + replace (Z.to_nat (bound - i)) with O by lia. reflexivity.
Qed.

Lemma fold_left_push {A B : Type} (f : A -> B) (l : list A) :
  forall acc : list B,
    fold_left (fun acc k => acc ++ [f k]) l acc = acc ++ map f l.
Proof.
  induction l as [|a l IH]; intros acc; cbn.
  - now rewrite app_nil_r.
  - rewrite IH, <- app_assoc. reflexivity.
Qed.

Lemma list_eq_nth_error {A : Type} (l1 l2 : list A) :
  List.length l1 = List.length l2 ->
  (forall i a, nth_error l2 i = Some a -> nth_error l1 i = Some a) ->
  l1 = l2.
Proof.
  revert l2. induction l1 as [|a l1 IH]; intros [|b l2] Hlen Hnth;
    cbn in Hlen; try discriminate; [reflexivity|].
  f_equal.
  - specialize (Hnth O b eq_refl). cbn in Hnth. congruence.
  - apply IH; [lia|]. intros i c Hc. exact (Hnth (S i) c Hc).
Qed.

End Loops.

(** ** The walkmesh decoder on byte buffers *)

Section ParseWalkmesh.
Local Open Scope Z_scope.
Import Layout.

Variable buffer : list Z.
Hypothesis Hbytes : is_bytes buffer.

(** A header count in 1..10000: the decoder returns one triangle per index,
    each read at its offsets. *)
Lemma parseWalkmesh_counted (N : Z) :
  4 <= walkmesh.length buffer -> word32 buffer 0 = N -> 1 <= N <= 10000 ->
  walkmesh.parseWalkmesh buffer
  = {| walkmesh.triangleCount := N;
       walkmesh.triangles :=
         map (walkmesh.triangleAt buffer (4 + N * 24)) (upto (Z.to_nat N) 0) |}.
Proof.
  intros Hlen Hw HN. unfold walkmesh.parseWalkmesh.
  destruct (Z.ltb_spec (walkmesh.length buffer) 4) as [Hs | _]; [lia|].
  rewrite (readUInt32_small buffer Hbytes 0) by lia.
  rewrite Hw.
  destruct (Z.eqb_spec N 0) as [H0 | _]; [lia|].
  destruct (Z.gtb_spec N 10000) as [Hbig | _]; [lia|].
  cbn [orb]. f_equal.
  rewrite for_loop_upto by lia.
  rewrite (fold_left_push (walkmesh.triangleAt buffer _)).
  rewrite Z.sub_0_r. reflexivity.
Qed.

(** A triangle stored at index [i] is the triangle the loop body reads. *)
Lemma triangleAt_stored (N i : Z) (tri : walkmesh.WalkmeshTriangle) :
  0 <= N -> 0 <= i ->
  triangle_stored buffer N i tri ->
  walkmesh.triangleAt buffer (4 + N * 24) i = tri.
Proof.
  intros HN Hi Hst.
  destruct tri as [[[v0 v1] v2] [[a0 a1] a2]].
  destruct v0 as [x0 y0 z0], v1 as [x1 y1 z1], v2 as [x2 y2 z2].
  pose proof (Hst 0 ltac:(lia)) as ((Hx0 & Hy0 & Hz0) & Ha0).
  pose proof (Hst 1 ltac:(lia)) as ((Hx1 & Hy1 & Hz1) & Ha1).
  pose proof (Hst 2 ltac:(lia)) as ((Hx2 & Hy2 & Hz2) & Ha2).
  clear Hst.
  unfold vertex_offset, access_offset, vertexOf, accessOf in *.
  cbn [walkmesh.vertices walkmesh.access walkmesh.x walkmesh.y walkmesh.z
       Z.eqb Pos.eqb] in *.
  unfold walkmesh.triangleAt, walkmesh.sectorPoolOffset.
  rewrite !(readInt16_signed16 buffer Hbytes) by lia.
  rewrite !(readUInt16_word16 buffer Hbytes) by lia.
  subst. repeat (f_equal; try lia).
Qed.

End ParseWalkmesh.

(** ** The walkmesh decoder: round trip, header policy, truncation *)

Section WalkmeshClaims.
Local Open Scope Z_scope.
Import Layout.

(** C1: a byte buffer of length at least 4 + N*30 that stores the count N
    (1 <= N <= 10000) as a little-endian 32-bit word at offset 0, vertex j
    of triangle i as signed little-endian 16-bit words at 4 + i*24 + j*8
    (+0, +2, +4) and the access value of edge e of triangle i as an
    unsigned little-endian 16-bit word at (4 + N*24) + i*6 + 2*e decodes to
    exactly these N triangles, in the stored order. *)
Theorem parseWalkmesh_roundtrip
        (buffer : list Z) (tris : list walkmesh.WalkmeshTriangle) :
  is_bytes buffer ->
  1 <= Z.of_nat (List.length tris) <= 10000 ->
  4 + Z.of_nat (List.length tris) * 30 <= walkmesh.length buffer ->
  encodes buffer tris ->
  walkmesh.parseWalkmesh buffer
  = {| walkmesh.triangleCount := Z.of_nat (List.length tris);
       walkmesh.triangles := tris |}.
Proof.
  intros Hbytes HN Hlen [Hcount Hstored].
  rewrite (parseWalkmesh_counted buffer Hbytes (Z.of_nat (List.length tris)))
    by (assumption || lia).
  f_equal. rewrite Nat2Z.id.
  apply list_eq_nth_error.
  - now rewrite length_map, length_upto.
  - intros i tri Hi.
    assert (Hlt : (i < List.length tris)%nat)
      by (apply nth_error_Some; congruence).
    rewrite nth_error_map, nth_error_upto by assumption.
    cbn [option_map]. f_equal.
    apply triangleAt_stored; try assumption; try lia.
    rewrite Z.add_0_l. now apply Hstored.
Qed.

Lemma parseWalkmesh_roundtrip_witness :
  is_bytes Examples.oneTriangleBuffer /\
  encodes Examples.oneTriangleBuffer [Examples.oneTriangle] /\
  walkmesh.parseWalkmesh Examples.oneTriangleBuffer
  = {| walkmesh.triangleCount := 1;
       walkmesh.triangles := [Examples.oneTriangle] |}.
Proof.
  assert (Henc : encodes Examples.oneTriangleBuffer [Examples.oneTriangle]).
  { split; [reflexivity|].
    intros [|i] tri Hi; [|destruct i; discriminate Hi].
    injection Hi as <-. intros j Hj.
    assert (Hcases : j = 0 \/ j = 1 \/ j = 2) by lia.
    destruct Hcases as [-> | [-> | ->]]; vm_compute; repeat split. }
  split; [reflexivity|]. split; [exact Henc|].
  apply (parseWalkmesh_roundtrip
           Examples.oneTriangleBuffer [Examples.oneTriangle]).
  - reflexivity.
  - cbn; lia.
  - vm_compute; discriminate.
  - exact Henc.
Defined.

(** The header policy where it holds: a short buffer, a zero count, and a
    count above 10000 whose top bit is clear give the empty walkmesh. *)
Lemma parseWalkmesh_short (buffer : list Z) :
  walkmesh.length buffer < 4 ->
  walkmesh.parseWalkmesh buffer
  = {| walkmesh.triangleCount := 0; walkmesh.triangles := [] |}.
Proof.
  intros Hs. unfold walkmesh.parseWalkmesh.
  destruct (Z.ltb_spec (walkmesh.length buffer) 4); [reflexivity | lia].
Qed.

Lemma parseWalkmesh_rejected (buffer : list Z) :
  is_bytes buffer -> 4 <= walkmesh.length buffer ->
  word32 buffer 0 = 0 \/ 10000 < word32 buffer 0 < 2 ^ 31 ->
  walkmesh.parseWalkmesh buffer
  = {| walkmesh.triangleCount := 0; walkmesh.triangles := [] |}.
Proof.
  intros Hbytes Hlen Hc. unfold walkmesh.parseWalkmesh.
  destruct (Z.ltb_spec (walkmesh.length buffer) 4); [lia|].
  rewrite (readUInt32_small buffer Hbytes 0) by lia.
  destruct (Z.eqb_spec (word32 buffer 0) 0); [reflexivity|].
  destruct (Z.gtb_spec (word32 buffer 0) 10000); [reflexivity | lia].
Qed.

(** From 2^31 on the count read is negative: it passes both header tests,
    the loop does not run, and the negative count is returned. *)
Lemma parseWalkmesh_wrapped (buffer : list Z) :
  is_bytes buffer -> 4 <= walkmesh.length buffer ->
  2 ^ 31 <= word32 buffer 0 ->
  walkmesh.parseWalkmesh buffer
  = {| walkmesh.triangleCount := word32 buffer 0 - 2 ^ 32;
       walkmesh.triangles := [] |}.
Proof.
  intros Hbytes Hlen Hc. unfold walkmesh.parseWalkmesh.
  destruct (Z.ltb_spec (walkmesh.length buffer) 4); [lia|].
  rewrite (readUInt32_large buffer Hbytes 0) by lia.
  pose proof (word32_range buffer Hbytes 0) as Hr.
  set (c := word32 buffer 0 - 2 ^ 32).
  assert (Hneg : c < 0) by (subst c; lia).
  destruct (Z.eqb_spec c 0); [lia|].
  destruct (Z.gtb_spec c 10000); [lia|].
  cbn [orb]. replace (Z.to_nat c) with O by lia. reflexivity.
Qed.

(** The invariant where it holds: whenever the stored count is below 2^31
    (or the buffer has no header). *)
Lemma parseWalkmesh_length_count (buffer : list Z) :
  is_bytes buffer ->
  walkmesh.length buffer < 4 \/ word32 buffer 0 < 2 ^ 31 ->
  Z.of_nat (List.length (walkmesh.triangles (walkmesh.parseWalkmesh buffer)))
  = walkmesh.triangleCount (walkmesh.parseWalkmesh buffer).
Proof.
  intros Hbytes Hc.
  destruct (Z.lt_ge_cases (walkmesh.length buffer) 4) as [Hs | Hlen].
  { now rewrite parseWalkmesh_short. }
  destruct Hc as [Hs | Hc]; [lia|].
  pose proof (word32_range buffer Hbytes 0) as Hr.
  destruct (Z.eq_dec (word32 buffer 0) 0) as [H0 | Hnz].
  { rewrite parseWalkmesh_rejected; auto. }
  destruct (Z.lt_ge_cases 10000 (word32 buffer 0)) as [Hbig | Hok].
  { rewrite parseWalkmesh_rejected; auto. }
  rewrite (parseWalkmesh_counted buffer Hbytes (word32 buffer 0))
    by (reflexivity || lia).
  cbn [walkmesh.triangles walkmesh.triangleCount].
  rewrite length_map, length_upto. lia.
Qed.

(** C2 (the code departs from the claim): on the 4-byte buffer 00 00 00 80
    the stored count is 2^31, above 10000, and the decoder returns an empty
    triangle list with triangleCount = -2147483648 instead of 0. *)
Theorem parseWalkmesh_high_count_not_zero :
  is_bytes Examples.highCountBuffer /\
  10000 < word32 Examples.highCountBuffer 0 /\
  walkmesh.parseWalkmesh Examples.highCountBuffer
  = {| walkmesh.triangleCount := -2147483648; walkmesh.triangles := [] |}.
Proof.
  split; [reflexivity|]. split; reflexivity.
Qed.

(** C3 (the code departs from the claim): on the 4-byte buffer 00 00 00 80
    the returned triangle list has length 0 while triangleCount is
    -2147483648. *)
Theorem parseWalkmesh_high_count_breaks_invariant :
  Z.of_nat (List.length (walkmesh.triangles
                           (walkmesh.parseWalkmesh Examples.highCountBuffer)))
  <> walkmesh.triangleCount (walkmesh.parseWalkmesh Examples.highCountBuffer).
Proof.
  vm_compute. discriminate.
Qed.

(** Reads past the end. *)
Lemma byte_at_beyond (buffer : list Z) (o : Z) :
  0 <= o -> walkmesh.length buffer <= o -> byte_at buffer o = 0.
Proof.
  intros Ho Hlen. unfold byte_at. apply nth_overflow.
  unfold walkmesh.length in Hlen. lia.
Qed.

Lemma field_beyond (buffer : list Z) (o : Z) :
  is_bytes buffer -> 0 <= o -> walkmesh.length buffer <= o ->
  walkmesh.readInt16 buffer o = 0 /\ walkmesh.readUInt16 buffer o = 0.
Proof.
  intros Hbytes Ho Hlen.
  rewrite readInt16_signed16, readUInt16_word16 by assumption.
  unfold word16. rewrite !byte_at_beyond by lia. split; reflexivity.
Qed.

Lemma is_bytes_padded (buffer : list Z) (k : nat) :
  is_bytes buffer -> is_bytes (buffer ++ repeat 0 k).
Proof.
  unfold is_bytes. intros Hb. rewrite forallb_app, Hb. cbn [andb].
  induction k as [|k IH]; [reflexivity | exact IH].
Qed.

Lemma byte_at_padded (buffer : list Z) (k : nat) (o : Z) :
  byte_at (buffer ++ repeat 0 k) o = byte_at buffer o.
Proof.
  unfold byte_at.
  destruct (Nat.lt_ge_cases (Z.to_nat o) (List.length buffer)) as [Hin | Hout].
  - now rewrite app_nth1.
  - rewrite app_nth2 by assumption.
    rewrite (nth_overflow buffer) by assumption.
    destruct (nth_in_or_default (Z.to_nat o - List.length buffer)
                                (repeat 0 k) 0) as [Hin | Hd].
    + now apply repeat_spec in Hin.
    + exact Hd.
Qed.

Lemma triangleAt_padded (buffer : list Z) (k : nat) (a i : Z) :
  is_bytes buffer -> 0 <= a -> 0 <= i ->
  walkmesh.triangleAt (buffer ++ repeat 0 k) a i
  = walkmesh.triangleAt buffer a i.
Proof.
  intros Hbytes Ha Hi.
  pose proof (is_bytes_padded buffer k Hbytes) as Hpad.
  unfold walkmesh.triangleAt, walkmesh.sectorPoolOffset.
  rewrite !(readInt16_signed16 _ Hpad), !(readUInt16_word16 _ Hpad) by lia.
  rewrite !(readInt16_signed16 _ Hbytes), !(readUInt16_word16 _ Hbytes)
    by lia.
  unfold word16. now rewrite !byte_at_padded.
Qed.

(** C10: a byte buffer with a header count N in 1..10000 that is shorter
    than 4 + N*30 bytes still decodes to N triangles; every 16-bit field
    whose offset is at or past the end of the buffer is 0, and the result is
    the one obtained from the buffer padded with zero bytes. *)
Theorem parseWalkmesh_truncated (buffer : list Z) (N : Z) :
  is_bytes buffer ->
  4 <= walkmesh.length buffer ->
  word32 buffer 0 = N -> 1 <= N <= 10000 ->
  walkmesh.length buffer < 4 + N * 30 ->
  walkmesh.triangleCount (walkmesh.parseWalkmesh buffer) = N /\
  Z.of_nat (List.length (walkmesh.triangles (walkmesh.parseWalkmesh buffer)))
  = N /\
  (forall (i : nat) (tri : walkmesh.WalkmeshTriangle),
      nth_error (walkmesh.triangles (walkmesh.parseWalkmesh buffer)) i
      = Some tri ->
      forall (o : Z) (field : walkmesh.WalkmeshTriangle -> Z),
        In (o, field) (fields N (Z.of_nat i)) ->
        walkmesh.length buffer <= o -> field tri = 0) /\
  (forall k : nat,
      walkmesh.parseWalkmesh (buffer ++ repeat 0 k)
      = walkmesh.parseWalkmesh buffer).
Proof.
  intros Hbytes Hlen Hcount HN Hshort.
  rewrite (parseWalkmesh_counted buffer Hbytes N) by assumption.
  remember (4 + N * 24) as a eqn:Ha.
  cbn [walkmesh.triangles walkmesh.triangleCount].
  split; [reflexivity|]. split; [rewrite length_map, length_upto; lia|].
  split.
  - intros i tri Hi o field Hin Ho.
    assert (Hlt : (i < Z.to_nat N)%nat).
    { assert (Hsome : nth_error
                        (map (walkmesh.triangleAt buffer a)
                             (upto (Z.to_nat N) 0)) i <> None) by congruence.
      apply nth_error_Some in Hsome.
      now rewrite length_map, length_upto in Hsome. }
    rewrite nth_error_map, nth_error_upto in Hi by assumption.
    cbn [option_map] in Hi. injection Hi as <-.
    change (0 + Z.of_nat i) with (Z.of_nat i).
    assert (Hz : forall o', 0 <= o' -> walkmesh.length buffer <= o' ->
                   walkmesh.readInt16 buffer o' = 0
                   /\ walkmesh.readUInt16 buffer o' = 0)
      by (intros; now apply field_beyond).
    unfold fields, vertex_offset, access_offset in Hin.
    cbn [flat_map app In] in Hin.
    repeat (destruct Hin as [Hin | Hin];
            [apply pair_equal_spec in Hin; destruct Hin as [<- <-];
             unfold vertexOf, accessOf, walkmesh.triangleAt,
                    walkmesh.sectorPoolOffset;
             cbn [walkmesh.vertices walkmesh.access
                  walkmesh.x walkmesh.y walkmesh.z Z.eqb Pos.eqb];
             match goal with
             | |- walkmesh.readInt16 _ ?o' = 0 => apply (Hz o'); lia
             | |- walkmesh.readUInt16 _ ?o' = 0 => apply (Hz o'); lia
             end
            |]).
    destruct Hin.
  - intros k.
    pose proof (is_bytes_padded buffer k Hbytes) as Hpad.
    rewrite (parseWalkmesh_counted _ Hpad N); try assumption.
    + f_equal. subst a. apply map_ext_in. intros i Hin.
      apply in_upto in Hin.
      apply triangleAt_padded; try assumption; lia.
    + unfold walkmesh.length in *. rewrite length_app. lia.
    + unfold word32. now rewrite !byte_at_padded.
Qed.

Lemma parseWalkmesh_truncated_witness :
  is_bytes Examples.truncatedBuffer /\
  4 <= walkmesh.length Examples.truncatedBuffer /\
  word32 Examples.truncatedBuffer 0 = 1 /\
  walkmesh.length Examples.truncatedBuffer < 4 + 1 * 30 /\
  walkmesh.triangleCount (walkmesh.parseWalkmesh Examples.truncatedBuffer)
  = 1 /\
  Z.of_nat (List.length (walkmesh.triangles
                           (walkmesh.parseWalkmesh Examples.truncatedBuffer)))
  = 1 /\
  (forall (i : nat) (tri : walkmesh.WalkmeshTriangle),
      nth_error (walkmesh.triangles
                   (walkmesh.parseWalkmesh Examples.truncatedBuffer)) i
      = Some tri ->
      forall (o : Z) (field : walkmesh.WalkmeshTriangle -> Z),
        In (o, field) (fields 1 (Z.of_nat i)) ->
        walkmesh.length Examples.truncatedBuffer <= o -> field tri = 0) /\
  (forall k : nat,
      walkmesh.parseWalkmesh (Examples.truncatedBuffer ++ repeat 0 k)
      = walkmesh.parseWalkmesh Examples.truncatedBuffer).
Proof.
  split; [reflexivity|].
  split; [vm_compute; discriminate|].
  split; [reflexivity|].
  split; [reflexivity|].
  apply (parseWalkmesh_truncated Examples.truncatedBuffer 1).
  - reflexivity.
  - vm_compute; discriminate.
  - reflexivity.
  - lia.
  - reflexivity.
Defined.

End WalkmeshClaims.

(** ** The gateway decoder *)

Section GatewayClaims.
Local Open Scope Z_scope.
Import Layout.

Variable buffer : list Z.
Hypothesis Hbytes : is_bytes buffer.

(** One iteration: the slot is appended when it is kept, and skipped
    otherwise. *)
Lemma gatewaySlot_filter (i : Z) (gateways : list walkmesh.Gateway) :
  0 <= i ->
  walkmesh.gatewaySlot buffer i gateways
  = gateways ++ (if slot_kept (slot_gateway buffer i)
                 then [slot_gateway buffer i] else []).
Proof.
  intros Hi.
  unfold walkmesh.gatewaySlot, slot_kept, slot_gateway, slot_offset,
         walkmesh.gatewayOffset.
  cbn [walkmesh.vertex1 walkmesh.vertex2 walkmesh.fieldId
       walkmesh.x walkmesh.y walkmesh.z].
  rewrite !(readInt16_signed16 buffer Hbytes) by lia.
  rewrite !(readUInt16_word16 buffer Hbytes) by lia.
  destruct (word16 buffer (56 + i * 24 + 18) =? 0); cbn [negb andb].
  - now rewrite app_nil_r.
  - destruct ((signed16 (word16 buffer (56 + i * 24)) =? 0)
              && (signed16 (word16 buffer (56 + i * 24 + 2)) =? 0)
              && (signed16 (word16 buffer (56 + i * 24 + 6)) =? 0)
              && (signed16 (word16 buffer (56 + i * 24 + 8)) =? 0));
      cbn [negb]; [now rewrite app_nil_r | reflexivity].
Qed.

Lemma gateways_fold (l : list Z) :
  (forall i, In i l -> 0 <= i) ->
  forall gateways : list walkmesh.Gateway,
    fold_left (fun s k => walkmesh.gatewaySlot buffer k s) l gateways
    = gateways ++ filter slot_kept (map (slot_gateway buffer) l).
Proof.
  induction l as [|k l IH]; intros Hpos gateways; cbn [fold_left map filter].
  - now rewrite app_nil_r.
  - rewrite IH by (intros i Hin; apply Hpos; now right).
    rewrite gatewaySlot_filter by (apply Hpos; now left).
    rewrite <- app_assoc.
    destruct (slot_kept (slot_gateway buffer k)); reflexivity.
Qed.

End GatewayClaims.

Section GatewayTheorem.
Local Open Scope Z_scope.
Import Layout.

(** C8: on a byte buffer of at least 344 bytes the gateway decoder returns,
    in slot order and without gaps, the slots among the 12 slots of 24
    bytes from offset 56 whose field identifier (unsigned 16-bit at +18) is
    nonzero and whose four x and y coordinates are not all zero, each with
    its field identifier and signed 16-bit coordinates; on a shorter buffer
    it returns the empty sequence. *)
Theorem parseGateways_filter (buffer : list Z) :
  is_bytes buffer ->
  (344 <= walkmesh.length buffer ->
   walkmesh.parseGateways buffer
   = filter slot_kept (map (slot_gateway buffer) (upto 12 0))) /\
  (walkmesh.length buffer < 344 -> walkmesh.parseGateways buffer = []).
Proof.
  intros Hbytes. unfold walkmesh.parseGateways. split; intros Hlen.
  - destruct (Z.ltb_spec (walkmesh.length buffer) 344); [lia|].
    rewrite for_loop_upto by (cbn; lia).
    rewrite (gateways_fold buffer Hbytes).
    + reflexivity.
    + intros i Hin. apply in_upto in Hin. lia.
  - destruct (Z.ltb_spec (walkmesh.length buffer) 344); [reflexivity | lia].
Qed.

Lemma parseGateways_filter_witness :
  is_bytes Examples.gatewaysBuffer /\
  344 <= walkmesh.length Examples.gatewaysBuffer /\
  walkmesh.parseGateways Examples.gatewaysBuffer
  = filter slot_kept
           (map (slot_gateway Examples.gatewaysBuffer) (upto 12 0)) /\
  walkmesh.length (firstn 343 Examples.gatewaysBuffer) < 344 /\
  walkmesh.parseGateways (firstn 343 Examples.gatewaysBuffer) = [].
Proof.
  split; [reflexivity|].
  split; [vm_compute; discriminate|].
  split.
  - apply (parseGateways_filter Examples.gatewaysBuffer); [reflexivity|].
    vm_compute; discriminate.
  - split; [reflexivity|].
    apply (parseGateways_filter (firstn 343 Examples.gatewaysBuffer));
      reflexivity.
Defined.

End GatewayTheorem.

(** ** The bounds calculator *)

Section Bounds.
Local Open Scope Z_scope.
Import Layout.

Lemma Qle_bool_inject_Z (a b : Z) :
  Qle_bool (inject_Z a) (inject_Z b) = (a <=? b).
Proof.
  unfold Qle_bool, inject_Z. cbn [Qnum Qden]. now rewrite !Z.mul_1_r.
Qed.

Lemma Math_min_num (a b : Z) :
  JS.Math_min (walkmesh.num a) (walkmesh.num b) = walkmesh.num (Z.min a b).
Proof.
  unfold walkmesh.num. cbn [JS.Math_min]. rewrite Qle_bool_inject_Z.
  destruct (Z.leb_spec a b).
  - now rewrite Z.min_l by lia.
  - now rewrite Z.min_r by lia.
Qed.

Lemma Math_max_num (a b : Z) :
  JS.Math_max (walkmesh.num a) (walkmesh.num b) = walkmesh.num (Z.max a b).
Proof.
  unfold walkmesh.num. cbn [JS.Math_max]. rewrite Qle_bool_inject_Z.
  destruct (Z.leb_spec a b).
  - now rewrite Z.max_r by lia.
  - now rewrite Z.max_l by lia.
Qed.

Lemma running_min_step (n : JS.number) (l : list Z) (k : Z) :
  running_min n l ->
  running_min (JS.Math_min n (walkmesh.num k)) (l ++ [k]).
Proof.
  intros [[-> ->] | [m [[Hin Hle] ->]]]; right.
  - exists k. split; [|reflexivity].
    split; [now left|]. intros k' [<- | []]. lia.
  - exists (Z.min m k). split; [|apply Math_min_num].
    split.
    + apply in_or_app. destruct (Z.min_spec m k) as [[_ ->] | [_ ->]];
        [now left | right; now left].
    + intros k' Hk'. apply in_app_or in Hk' as [Hk' | [<- | []]].
      * specialize (Hle k' Hk'). lia.
      * lia.
Qed.

Lemma running_max_step (n : JS.number) (l : list Z) (k : Z) :
  running_max n l ->
  running_max (JS.Math_max n (walkmesh.num k)) (l ++ [k]).
Proof.
  intros [[-> ->] | [m [[Hin Hle] ->]]]; right.
  - exists k. split; [|reflexivity].
    split; [now left|]. intros k' [<- | []]. lia.
  - exists (Z.max m k). split; [|apply Math_max_num].
    split.
    + apply in_or_app. destruct (Z.max_spec m k) as [[_ ->] | [_ ->]];
        [right; now left | now left].
    + intros k' Hk'. apply in_app_or in Hk' as [Hk' | [<- | []]].
      * specialize (Hle k' Hk'). lia.
      * lia.
Qed.

(** One axis through the inner loop: a component of the running extrema
    that each step updates with [Math.min] (or [Math.max]) of one
    coordinate. *)
Lemma fold_running_min (get : walkmesh.Extrema -> JS.number)
      (coord : walkmesh.WalkmeshVertex -> Z) :
  (forall e v, get (walkmesh.boundsVertex e v)
               = JS.Math_min (get e) (walkmesh.num (coord v))) ->
  forall vs e seen,
    running_min (get e) (map coord seen) ->
    running_min (get (fold_left walkmesh.boundsVertex vs e))
                (map coord (seen ++ vs)).
Proof.
  intros Hstep vs. induction vs as [|v vs IH]; intros e seen Hrun.
  - now rewrite app_nil_r.
  - cbn [fold_left].
    replace (seen ++ v :: vs) with ((seen ++ [v]) ++ vs)
      by (now rewrite <- app_assoc).
    apply IH. rewrite Hstep, map_app. now apply running_min_step.
Qed.

Lemma fold_running_max (get : walkmesh.Extrema -> JS.number)
      (coord : walkmesh.WalkmeshVertex -> Z) :
  (forall e v, get (walkmesh.boundsVertex e v)
               = JS.Math_max (get e) (walkmesh.num (coord v))) ->
  forall vs e seen,
    running_max (get e) (map coord seen) ->
    running_max (get (fold_left walkmesh.boundsVertex vs e))
                (map coord (seen ++ vs)).
Proof.
  intros Hstep vs. induction vs as [|v vs IH]; intros e seen Hrun.
  - now rewrite app_nil_r.
  - cbn [fold_left].
    replace (seen ++ v :: vs) with ((seen ++ [v]) ++ vs)
      by (now rewrite <- app_assoc).
    apply IH. rewrite Hstep, map_app. now apply running_max_step.
Qed.

(** The nested loops visit the vertices of [allVertices] in order. *)
Lemma fold_boundsTriangle (tris : list walkmesh.WalkmeshTriangle) :
  forall e,
    fold_left walkmesh.boundsTriangle tris e
    = fold_left walkmesh.boundsVertex (flat_map walkmesh.vertexList tris) e.
Proof.
  induction tris as [|tri tris IH]; intros e; cbn [fold_left flat_map].
  - reflexivity.
  - rewrite fold_left_app. apply IH.
Qed.

Lemma allVertices_nonempty (wm : walkmesh.Walkmesh) :
  walkmesh.triangles wm <> [] -> allVertices wm <> [].
Proof.
  unfold allVertices. destruct (walkmesh.triangles wm) as [|tri tris];
    [congruence|]. intros _.
  cbn [flat_map]. unfold walkmesh.vertexList.
  destruct (walkmesh.vertices tri) as [[v0 v1] v2]. discriminate.
Qed.

Lemma axis_bounds_intro (coord : walkmesh.WalkmeshVertex -> Z)
      (wm : walkmesh.Walkmesh) (lo hi : JS.number) :
  allVertices wm <> [] ->
  running_min lo (map coord (allVertices wm)) ->
  running_max hi (map coord (allVertices wm)) ->
  axis_bounds coord wm lo hi (JS.half (JS.add lo hi)).
Proof.
  intros Hne [[Hnil _] | [m [Hmin ->]]].
  { apply map_eq_nil in Hnil. contradiction. }
  intros [[Hnil _] | [M [Hmax ->]]].
  { apply map_eq_nil in Hnil. contradiction. }
  exists m, M. repeat split; try apply Hmin; try apply Hmax.
Qed.

(** C9: the bounds of a walkmesh without triangles are all 0; otherwise,
    on each axis, min and max are the least and the greatest value of that
    coordinate over every vertex of every triangle, and the center is
    (min + max) / 2. *)
Theorem calculateWalkmeshBounds_extrema (wm : walkmesh.Walkmesh) :
  (walkmesh.triangles wm = [] ->
   walkmesh.calculateWalkmeshBounds wm
   = {| walkmesh.minX := walkmesh.num 0; walkmesh.maxX := walkmesh.num 0;
        walkmesh.minY := walkmesh.num 0; walkmesh.maxY := walkmesh.num 0;
        walkmesh.minZ := walkmesh.num 0; walkmesh.maxZ := walkmesh.num 0;
        walkmesh.centerX := walkmesh.num 0;
        walkmesh.centerY := walkmesh.num 0;
        walkmesh.centerZ := walkmesh.num 0 |}) /\
  (walkmesh.triangles wm <> [] ->
   let b := walkmesh.calculateWalkmeshBounds wm in
   axis_bounds walkmesh.x wm
     (walkmesh.minX b) (walkmesh.maxX b) (walkmesh.centerX b) /\
   axis_bounds walkmesh.y wm
     (walkmesh.minY b) (walkmesh.maxY b) (walkmesh.centerY b) /\
   axis_bounds walkmesh.z wm
     (walkmesh.minZ b) (walkmesh.maxZ b) (walkmesh.centerZ b)).
Proof.
  unfold walkmesh.calculateWalkmeshBounds. split.
  - intros ->. reflexivity.
  - intros Hne.
    destruct (Z.eqb_spec (Z.of_nat (List.length (walkmesh.triangles wm))) 0)
      as [H0 | _].
    { destruct (walkmesh.triangles wm); [congruence | discriminate H0]. }
    cbn zeta.
    cbn [walkmesh.minX walkmesh.maxX walkmesh.minY walkmesh.maxY
         walkmesh.minZ walkmesh.maxZ
         walkmesh.centerX walkmesh.centerY walkmesh.centerZ].
    rewrite fold_boundsTriangle. fold (allVertices wm).
    pose proof (allVertices_nonempty wm Hne) as Hvs.
    repeat split; apply axis_bounds_intro; try assumption;
      first
        [ apply (fold_running_min _ _ (fun _ _ => eq_refl)
                                  (allVertices wm) _ []); left; now split
        | apply (fold_running_max _ _ (fun _ _ => eq_refl)
                                  (allVertices wm) _ []); left; now split ].
Qed.

Lemma calculateWalkmeshBounds_extrema_witness :
  walkmesh.triangles Examples.spanning <> [] /\
  let b := walkmesh.calculateWalkmeshBounds Examples.spanning in
  axis_bounds walkmesh.x Examples.spanning
    (walkmesh.minX b) (walkmesh.maxX b) (walkmesh.centerX b) /\
  axis_bounds walkmesh.y Examples.spanning
    (walkmesh.minY b) (walkmesh.maxY b) (walkmesh.centerY b) /\
  axis_bounds walkmesh.z Examples.spanning
    (walkmesh.minZ b) (walkmesh.maxZ b) (walkmesh.centerZ b).
Proof.
  split; [discriminate|].
  apply (proj2 (calculateWalkmeshBounds_extrema Examples.spanning)).
  discriminate.
Defined.

End Bounds.

(** ** Point location *)

Section PointInTriangle.
Local Open Scope Q_scope.
Import Geometry.

Lemma ltb_lt (a b : Q) : JS.ltb a b = true <-> a < b.
Proof.
  unfold JS.ltb. rewrite negb_true_iff.
  split; intros H.
  - apply Qnot_le_lt. intros Hle. apply Qle_bool_iff in Hle. congruence.
  - destruct (Qle_bool b a) eqn:E; [|reflexivity].
    apply Qle_bool_iff in E. apply Qlt_not_le in H. contradiction.
Qed.

Lemma ltb_ge (a b : Q) : JS.ltb a b = false <-> b <= a.
Proof.
  unfold JS.ltb. rewrite negb_false_iff. apply Qle_bool_iff.
Qed.

Variables px py v0x v0y v1x v1y v2x v2y : Q.

Let D := signedArea v0x v0y v1x v1y v2x v2y.
Let s := (v1y - v2y) * (px - v2x) + (v2x - v1x) * (py - v2y).
Let t := (v2y - v0y) * (px - v2x) + (v0x - v2x) * (py - v2y).

(** The test, read as inequalities. *)
Lemma pointInTriangle_iff :
  Query.pointInTriangle px py v0x v0y v1x v1y v2x v2y = true <->
  (D < 0 /\ s <= 0 /\ t <= 0 /\ D <= s + t) \/
  (0 <= D /\ 0 <= s /\ 0 <= t /\ s + t <= D).
Proof.
  unfold Query.pointInTriangle. cbv zeta.
  fold (signedArea v0x v0y v1x v1y v2x v2y). fold D. fold s. fold t.
  destruct (JS.ltb D 0) eqn:E.
  - apply ltb_lt in E.
    rewrite !andb_true_iff, !Qle_bool_iff.
    split; [intros [[H1 H2] H3]; left; tauto|].
    intros [H | [H _]]; [tauto|]. apply Qlt_not_le in E. contradiction.
  - apply ltb_ge in E.
    rewrite !andb_true_iff, !Qle_bool_iff.
    split; [intros [[H1 H2] H3]; right; tauto|].
    intros [[H _] | H]; [|tauto]. apply Qlt_not_le in H. contradiction.
Qed.

(** With weights [a], [b], [c] the two numerators are [a * D] and
    [b * D]. *)
Lemma weights_numerators (a b c : Q) :
  weights px py v0x v0y v1x v1y v2x v2y a b c ->
  s == a * D /\ t == b * D.
Proof.
  intros (Hsum & Hx & Hy).
  assert (Hc : c == 1 - a - b) by lra.
  subst D s t. unfold signedArea. rewrite Hx, Hy, Hc. split; ring.
Qed.


Lemma inside_closed_triangle :
  ~ D == 0 ->
  Query.pointInTriangle px py v0x v0y v1x v1y v2x v2y = true ->
  in_closed_triangle px py v0x v0y v1x v1y v2x v2y.
Proof.
  intros HD Hin. apply pointInTriangle_iff in Hin.
  exists (s / D), (t / D), (1 - s / D - t / D).
  assert (Ha : (s / D) * D == s) by (field; exact HD).
  assert (Hb : (t / D) * D == t) by (field; exact HD).
  assert (Hnn : 0 <= s / D /\ 0 <= t / D /\ 0 <= 1 - s / D - t / D).
  { destruct Hin as [(H1 & H2 & H3 & H4) | (H1 & H2 & H3 & H4)].
    - repeat split; nra.
    - assert (0 < D) by (apply Qle_lteq in H1 as [H1 | H1];
                         [exact H1 | symmetry in H1; contradiction]).
      repeat split; nra. }
  destruct Hnn as (H1 & H2 & H3).
  repeat split; try assumption.
  - ring.
  - subst s t. subst D. unfold signedArea in *. field. exact HD.
  - subst s t. subst D. unfold signedArea in *. field. exact HD.
Qed.


End PointInTriangle.

Section PointInTriangleWitness.
Local Open Scope Q_scope.
Import Geometry.


End PointInTriangleWitness.

Section Scan.
Local Open Scope Z_scope.
Import Geometry.

(** The scan either stops at the first triangle of [rest] that contains the
    point, or runs through [rest] and returns the sentinel. *)
Lemma scanFrom_first (x y : Q) (rest : list walkmesh.WalkmeshTriangle) :
  forall i : Z,
    (exists (j : nat) (tri : walkmesh.WalkmeshTriangle),
        nth_error rest j = Some tri /\
        contains tri x y = true /\
        (forall (j' : nat) (tri' : walkmesh.WalkmeshTriangle),
            (j' < j)%nat -> nth_error rest j' = Some tri' ->
            contains tri' x y = false) /\
        Query.scanFrom rest i x y
        = {| Query.triangleId := i + Z.of_nat j;
             Query.z := JS.Math_round (Query.calculateZAtPoint x y tri) |})
    \/
    ((forall tri, In tri rest -> contains tri x y = false) /\
     Query.scanFrom rest i x y
     = {| Query.triangleId := -1; Query.z := 0 |}).
Proof.
  induction rest as [|tri rest IH]; intros i.
  - right. split; [intros tri []|reflexivity].
  - cbn [Query.scanFrom].
    destruct (contains tri x y) eqn:Hc.
    + left. exists O, tri. repeat split.
      * exact Hc.
      * intros j' tri' Hlt. lia.
      * unfold contains in Hc.
        destruct (walkmesh.vertices tri) as [[v0 v1] v2].
        rewrite Hc. f_equal. lia.
    + assert (Hstep : Query.scanFrom (tri :: rest) i x y
                      = Query.scanFrom rest (i + 1) x y).
      { cbn [Query.scanFrom]. unfold contains in Hc.
        destruct (walkmesh.vertices tri) as [[v0 v1] v2].
        now rewrite Hc. }
      cbn [Query.scanFrom] in Hstep. rewrite Hstep.
      destruct (IH (i + 1)) as [(j & tri' & Hnth & Hin & Hbefore & Hres)
                               | [Hnone Hres]].
      * left. exists (S j), tri'. repeat split; try assumption.
        -- intros [|j'] t Hlt Ht.
           ++ cbn in Ht. congruence.
           ++ apply (Hbefore j' t); [lia | exact Ht].
        -- rewrite Hres. f_equal. lia.
      * right. split; [|exact Hres].
        intros t [<- | Ht]; [exact Hc | now apply Hnone].
Qed.


End Scan.

(** ** Elevation *)

Section Elevation.
Local Open Scope Q_scope.
Import Geometry.



(** A denominator of magnitude at least 1e-4 is not zero. *)
Lemma denominator_apart (d : Q) : 1 # 10000 <= Qabs d -> ~ d == 0.
Proof.
  intros Hd H0. rewrite H0 in Hd. cbn in Hd. apply Qle_not_lt in Hd.
  apply Hd. reflexivity.
Qed.

Variables (x y : Q) (tri : walkmesh.WalkmeshTriangle).

(** C7: when the barycentric denominator of the triangle has magnitude
    below 1e-4 (as for three collinear vertices), the interpolation is the
    unweighted average of the three elevations, for every query point; no
    division by the denominator takes place. *)
Theorem calculateZAtPoint_degenerate :
  Qabs (denominator tri) < 1 # 10000 ->
  Query.calculateZAtPoint x y tri = meanElevation tri.
Proof.
  intros Hd. unfold Query.calculateZAtPoint, meanElevation.
  unfold denominator, signedArea in Hd.
  destruct (walkmesh.vertices tri) as [[v0 v1] v2].
  apply ltb_lt in Hd. now rewrite Hd.
Qed.

(** Away from the degenerate case the interpolation uses the weights
    [w0], [w1], [w2] computed in the source; they are barycentric weights
    of the point. *)
Lemma calculateZAtPoint_weights_exist :
  1 # 10000 <= Qabs (denominator tri) ->
  exists w0 w1 w2 : Q,
    triangle_weights tri x y w0 w1 w2 /\
    Query.calculateZAtPoint x y tri = interpolate tri w0 w1 w2.
Proof.
  intros Hd. pose proof (denominator_apart _ Hd) as Hnz.
  unfold Query.calculateZAtPoint, triangle_weights, interpolate, weights.
  unfold denominator, signedArea in Hd, Hnz.
  destruct (walkmesh.vertices tri) as [[v0 v1] v2].
  apply ltb_ge in Hd. rewrite Hd.
  eexists _, _, _. split; [|reflexivity].
  repeat split.
  - ring.
  - field. exact Hnz.
  - field. exact Hnz.
Qed.

(** Barycentric weights against a triangle of nonzero area are unique, so
    any of them interpolate the same elevation. *)
Lemma interpolate_unique (w0 w1 w2 u0 u1 u2 : Q) :
  ~ denominator tri == 0 ->
  triangle_weights tri x y w0 w1 w2 ->
  triangle_weights tri x y u0 u1 u2 ->
  interpolate tri w0 w1 w2 == interpolate tri u0 u1 u2.
Proof.
  unfold denominator, triangle_weights, interpolate.
  destruct (walkmesh.vertices tri) as [[v0 v1] v2].
  intros Hnz Hw Hu.
  destruct (weights_numerators _ _ _ _ _ _ _ _ _ _ _ Hw) as [Hs Ht].
  destruct (weights_numerators _ _ _ _ _ _ _ _ _ _ _ Hu) as [Hs' Ht'].
  destruct Hw as (Hsum & _ & _). destruct Hu as (Hsum' & _ & _).
  set (D := signedArea _ _ _ _ _ _) in *.
  assert (E0 : w0 == u0).
  { apply (Qmult_inj_r _ _ D Hnz). now rewrite <- Hs, <- Hs'. }
  assert (E1 : w1 == u1).
  { apply (Qmult_inj_r _ _ D Hnz). now rewrite <- Ht, <- Ht'. }
  assert (E2 : w2 == u2) by lra.
  now rewrite E0, E1, E2.
Qed.

End Elevation.

Section ElevationClaims.
Local Open Scope Q_scope.
Import Geometry.

Lemma calculateZAtPoint_degenerate_witness :
  Qabs (denominator Examples.collinear) < 1 # 10000 /\
  Query.calculateZAtPoint 3 4 Examples.collinear
  = meanElevation Examples.collinear.
Proof.
  split; [reflexivity|].
  apply (calculateZAtPoint_degenerate 3 4 Examples.collinear).
  reflexivity.
Defined.



End ElevationClaims.

(** ** Further properties of the decoders *)

Section DecoderShape.
Local Open Scope Z_scope.
Import Layout Reads.

(** Whatever the buffer holds, the triangle list is the loop body mapped
    over the indices below a count of at most 10000. *)
Lemma parseWalkmesh_shape (buffer : list Z) :
  exists count : Z,
    count <= 10000 /\
    walkmesh.triangleCount (walkmesh.parseWalkmesh buffer) <= 10000 /\
    walkmesh.triangles (walkmesh.parseWalkmesh buffer)
    = map (walkmesh.triangleAt buffer (4 + count * 24))
          (upto (Z.to_nat count) 0).
Proof.
  unfold walkmesh.parseWalkmesh.
  destruct (walkmesh.length buffer <? 4).
  { exists 0. cbn. repeat split; lia. }
  set (c := walkmesh.readUInt32 buffer 0).
  destruct (Z.eqb_spec c 0) as [H0 | Hnz].
  { exists 0. cbn. repeat split; lia. }
  destruct (Z.gtb_spec c 10000) as [Hbig | Hok].
  { exists 0. cbn. repeat split; lia. }
  exists c. cbn [orb walkmesh.triangles walkmesh.triangleCount].
  repeat split; try lia.
  rewrite for_loop_upto by lia.
  rewrite (fold_left_push (walkmesh.triangleAt buffer _)).
  now rewrite Z.sub_0_r.
Qed.

Lemma signed16_int16 (buffer : list Z) (o : Z) :
  is_bytes buffer -> int16 (signed16 (word16 buffer o)).
Proof.
  intros Hbytes. pose proof (word16_range buffer Hbytes o).
  unfold signed16, int16.
  change 0x8000 with 32768. change 0x10000 with 65536.
  destruct (Z.leb_spec 32768 (word16 buffer o)); lia.
Qed.

Lemma triangleAt_ranges (buffer : list Z) (a i j : Z) :
  is_bytes buffer -> 0 <= a -> 0 <= i -> 0 <= j < 3 ->
  vertex_int16 (vertexOf (walkmesh.triangleAt buffer a i) j) /\
  uint16 (accessOf (walkmesh.triangleAt buffer a i) j).
Proof.
  intros Hbytes Ha Hi Hj.
  unfold walkmesh.triangleAt, walkmesh.sectorPoolOffset, vertexOf, accessOf,
         vertex_int16.
  cbn [walkmesh.vertices walkmesh.access].
  rewrite !(readInt16_signed16 buffer Hbytes) by lia.
  rewrite !(readUInt16_word16 buffer Hbytes) by lia.
  destruct (j =? 0); [|destruct (j =? 1)];
    cbn [walkmesh.x walkmesh.y walkmesh.z];
    repeat split;
    try (apply (signed16_int16 buffer _ Hbytes));
    try (apply (word16_range buffer Hbytes)).
Qed.

Lemma parseWalkmesh_ranges_aux (buffer : list Z)
      (tri : walkmesh.WalkmeshTriangle) (j : Z) :
  is_bytes buffer ->
  In tri (walkmesh.triangles (walkmesh.parseWalkmesh buffer)) ->
  0 <= j < 3 ->
  vertex_int16 (vertexOf tri j) /\ uint16 (accessOf tri j).
Proof.
  intros Hbytes Hin Hj.
  destruct (parseWalkmesh_shape buffer) as (count & _ & _ & Htris).
  rewrite Htris in Hin. apply in_map_iff in Hin as (i & <- & Hi).
  apply in_upto in Hi.
  apply triangleAt_ranges; try assumption; lia.
Qed.

Lemma parseWalkmesh_at_most_10000_aux (buffer : list Z) :
  Z.of_nat (List.length (walkmesh.triangles (walkmesh.parseWalkmesh buffer)))
  <= 10000 /\
  walkmesh.triangleCount (walkmesh.parseWalkmesh buffer) <= 10000.
Proof.
  destruct (parseWalkmesh_shape buffer) as (count & Hc & Htc & Htris).
  split; [|exact Htc].
  rewrite Htris, length_map, length_upto. lia.
Qed.

(** X1: Every coordinate the walkmesh decoder returns is a signed 16-bit value
    and every access value an unsigned 16-bit value. *)
Theorem parseWalkmesh_ranges (buffer : list Z) (tri : walkmesh.WalkmeshTriangle)
        (j : Z) :
  is_bytes buffer ->
  In tri (walkmesh.triangles (walkmesh.parseWalkmesh buffer)) ->
  0 <= j < 3 ->
  vertex_int16 (vertexOf tri j) /\ uint16 (accessOf tri j).
Proof.
  intros Hbytes Hin Hj. now apply (parseWalkmesh_ranges_aux buffer).
Qed.

Lemma parseWalkmesh_ranges_witness :
  is_bytes Examples.oneTriangleBuffer /\
  In Examples.oneTriangle
     (walkmesh.triangles (walkmesh.parseWalkmesh Examples.oneTriangleBuffer)) /\
  vertex_int16 (vertexOf Examples.oneTriangle 1) /\
  uint16 (accessOf Examples.oneTriangle 1).
Proof.
  split; [reflexivity|]. split; [left; reflexivity|].
  apply (parseWalkmesh_ranges Examples.oneTriangleBuffer
                              Examples.oneTriangle 1).
  - reflexivity.
  - left; reflexivity.
  - lia.
Defined.

(** X2: The decoder never returns more than 10000 triangles, nor a triangle
    count above 10000, whatever the buffer holds. *)
Theorem parseWalkmesh_at_most_10000 (buffer : list Z) :
  Z.of_nat (List.length (walkmesh.triangles (walkmesh.parseWalkmesh buffer)))
  <= 10000 /\
  walkmesh.triangleCount (walkmesh.parseWalkmesh buffer) <= 10000.
Proof.
  apply parseWalkmesh_at_most_10000_aux.
Qed.

End DecoderShape.

Section DecoderReads.
Local Open Scope Z_scope.
Import Layout Reads.

(** X3: The two readers lose nothing: the stored bytes are recovered from the
    value read, and the signed value is the unsigned one modulo 2^16. *)
Theorem readers_recover_bytes (buffer : list Z) (o : Z) :
  is_bytes buffer -> 0 <= o ->
  byte_at buffer o = walkmesh.readUInt16 buffer o mod 256 /\
  byte_at buffer (o + 1) = walkmesh.readUInt16 buffer o / 256 /\
  walkmesh.readInt16 buffer o mod 65536 = walkmesh.readUInt16 buffer o.
Proof.
  intros Hbytes Ho.
  rewrite (readInt16_signed16 buffer Hbytes), (readUInt16_word16 buffer Hbytes)
    by assumption.
  pose proof (byte_at_range buffer Hbytes o) as H0.
  pose proof (byte_at_range buffer Hbytes (o + 1)) as H1.
  unfold word16, signed16.
  set (b0 := byte_at buffer o) in *. set (b1 := byte_at buffer (o + 1)) in *.
  change 0x8000 with 32768. change 0x10000 with 65536.
  repeat split.
  - replace (b0 + 256 * b1) with (b0 + b1 * 256) by lia.
    rewrite Z.mod_add by lia. symmetry. apply Z.mod_small. lia.
  - replace (b0 + 256 * b1) with (b0 + b1 * 256) by lia.
    rewrite Z.div_add by lia. rewrite Z.div_small by lia. lia.
  - destruct (Z.leb_spec 32768 (b0 + 256 * b1)).
    + replace (b0 + 256 * b1 - 65536) with (b0 + 256 * b1 + (-1) * 65536)
        by lia.
      rewrite Z.mod_add by lia. apply Z.mod_small. lia.
    + apply Z.mod_small. lia.
Qed.

Lemma readers_recover_bytes_witness :
  is_bytes Examples.oneTriangleBuffer /\
  byte_at Examples.oneTriangleBuffer 12
  = walkmesh.readUInt16 Examples.oneTriangleBuffer 12 mod 256 /\
  byte_at Examples.oneTriangleBuffer (12 + 1)
  = walkmesh.readUInt16 Examples.oneTriangleBuffer 12 / 256 /\
  walkmesh.readInt16 Examples.oneTriangleBuffer 12 mod 65536
  = walkmesh.readUInt16 Examples.oneTriangleBuffer 12.
Proof.
  split; [reflexivity|].
  apply (readers_recover_bytes Examples.oneTriangleBuffer 12);
    [reflexivity | lia].
Defined.

(** X4: The header policy as the decoder applies it: a buffer without a
    header, a stored count of 0, and a stored count above 10000 and below
    2^31 give the empty walkmesh. *)
Theorem parseWalkmesh_header_policy (buffer : list Z) :
  is_bytes buffer ->
  walkmesh.length buffer < 4 \/ word32 buffer 0 = 0
  \/ 10000 < word32 buffer 0 < 2 ^ 31 ->
  walkmesh.parseWalkmesh buffer
  = {| walkmesh.triangleCount := 0; walkmesh.triangles := [] |}.
Proof.
  intros Hbytes Hc.
  destruct (Z.lt_ge_cases (walkmesh.length buffer) 4) as [Hs | Hlen].
  - now apply parseWalkmesh_short.
  - apply parseWalkmesh_rejected; try assumption.
    destruct Hc as [Hs | Hc]; [lia | exact Hc].
Qed.

Lemma parseWalkmesh_header_policy_witness :
  is_bytes MoreExamples.overCeilingBuffer /\
  10000 < word32 MoreExamples.overCeilingBuffer 0 < 2 ^ 31 /\
  walkmesh.parseWalkmesh MoreExamples.overCeilingBuffer
  = {| walkmesh.triangleCount := 0; walkmesh.triangles := [] |}.
Proof.
  split; [reflexivity|]. split; [split; reflexivity|].
  apply (parseWalkmesh_header_policy MoreExamples.overCeilingBuffer);
    [reflexivity|].
  right; right. split; reflexivity.
Defined.

(** X5: A stored count of 2^31 or more is read as the negative number
    count - 2^32: the decoder returns it as the triangle count, with an
    empty triangle list. *)
Theorem parseWalkmesh_count_wraps (buffer : list Z) :
  is_bytes buffer -> 4 <= walkmesh.length buffer ->
  2 ^ 31 <= word32 buffer 0 ->
  walkmesh.parseWalkmesh buffer
  = {| walkmesh.triangleCount := word32 buffer 0 - 2 ^ 32;
       walkmesh.triangles := [] |} /\
  walkmesh.triangleCount (walkmesh.parseWalkmesh buffer) < 0.
Proof.
  intros Hbytes Hlen Hc.
  rewrite (parseWalkmesh_wrapped buffer Hbytes Hlen Hc).
  split; [reflexivity|]. cbn [walkmesh.triangleCount].
  pose proof (word32_range buffer Hbytes 0). lia.
Qed.

Lemma parseWalkmesh_count_wraps_witness :
  is_bytes MoreExamples.allOnesHeader /\
  4 <= walkmesh.length MoreExamples.allOnesHeader /\
  2 ^ 31 <= word32 MoreExamples.allOnesHeader 0 /\
  walkmesh.parseWalkmesh MoreExamples.allOnesHeader
  = {| walkmesh.triangleCount := word32 MoreExamples.allOnesHeader 0 - 2 ^ 32;
       walkmesh.triangles := [] |} /\
  walkmesh.triangleCount (walkmesh.parseWalkmesh MoreExamples.allOnesHeader)
  < 0.
Proof.
  split; [reflexivity|].
  split; [vm_compute; discriminate|].
  split; [vm_compute; discriminate|].
  apply (parseWalkmesh_count_wraps MoreExamples.allOnesHeader).
  - reflexivity.
  - vm_compute; discriminate.
  - vm_compute; discriminate.
Defined.

(** X6: Whenever the stored count is below 2^31, the triangle count returned
    is the length of the triangle list returned, and it is not negative. *)
Theorem parseWalkmesh_count_is_length (buffer : list Z) :
  is_bytes buffer ->
  walkmesh.length buffer < 4 \/ word32 buffer 0 < 2 ^ 31 ->
  walkmesh.triangleCount (walkmesh.parseWalkmesh buffer)
  = Z.of_nat (List.length (walkmesh.triangles
                             (walkmesh.parseWalkmesh buffer))).
Proof.
  intros Hbytes Hc. symmetry. now apply parseWalkmesh_length_count.
Qed.

Lemma parseWalkmesh_count_is_length_witness :
  is_bytes Examples.truncatedBuffer /\
  word32 Examples.truncatedBuffer 0 < 2 ^ 31 /\
  walkmesh.triangleCount (walkmesh.parseWalkmesh Examples.truncatedBuffer)
  = Z.of_nat (List.length
                (walkmesh.triangles
                   (walkmesh.parseWalkmesh Examples.truncatedBuffer))).
Proof.
  split; [reflexivity|]. split; [reflexivity|].
  apply (parseWalkmesh_count_is_length Examples.truncatedBuffer);
    [reflexivity|].
  right. reflexivity.
Defined.

(** Two buffers that agree at the offsets read give the same triangle. *)
Lemma triangleAt_agree (b1 b2 : list Z) (N i : Z) :
  is_bytes b1 -> is_bytes b2 -> 0 <= i < N ->
  (forall o, walkmesh_offset N o -> byte_at b1 o = byte_at b2 o) ->
  walkmesh.triangleAt b1 (4 + N * 24) i
  = walkmesh.triangleAt b2 (4 + N * 24) i.
Proof.
  intros H1 H2 Hi Hagree.
  assert (Hv : forall j k, 0 <= j < 3 -> 0 <= k < 6 ->
                 byte_at b1 (4 + i * 24 + j * 8 + k)
                 = byte_at b2 (4 + i * 24 + j * 8 + k)).
  { intros j k Hj Hk. apply Hagree. right; left. exists i, j, k. lia. }
  assert (Ha : forall k, 0 <= k < 6 ->
                 byte_at b1 (4 + N * 24 + i * 6 + k)
                 = byte_at b2 (4 + N * 24 + i * 6 + k)).
  { intros k Hk. apply Hagree. right; right. lia. }
  assert (Hw : forall j k, 0 <= j < 3 -> 0 <= k < 5 ->
                 word16 b1 (4 + i * 24 + j * 8 + k)
                 = word16 b2 (4 + i * 24 + j * 8 + k)).
  { intros j k Hj Hk. unfold word16.
    rewrite (Hv j k) by lia.
    replace (4 + i * 24 + j * 8 + k + 1) with (4 + i * 24 + j * 8 + (k + 1))
      by lia.
    now rewrite (Hv j (k + 1)) by lia. }
  assert (Hwa : forall k, 0 <= k < 5 ->
                  word16 b1 (4 + N * 24 + i * 6 + k)
                  = word16 b2 (4 + N * 24 + i * 6 + k)).
  { intros k Hk. unfold word16.
    rewrite (Ha k) by lia.
    replace (4 + N * 24 + i * 6 + k + 1) with (4 + N * 24 + i * 6 + (k + 1))
      by lia.
    now rewrite (Ha (k + 1)) by lia. }
  unfold walkmesh.triangleAt, walkmesh.sectorPoolOffset.
  rewrite !(readInt16_signed16 b1 H1), !(readUInt16_word16 b1 H1) by lia.
  rewrite !(readInt16_signed16 b2 H2), !(readUInt16_word16 b2 H2) by lia.
  pose proof (Hw 0 0 ltac:(lia) ltac:(lia)) as E00.
  pose proof (Hw 0 2 ltac:(lia) ltac:(lia)) as E02.
  pose proof (Hw 0 4 ltac:(lia) ltac:(lia)) as E04.
  pose proof (Hw 1 0 ltac:(lia) ltac:(lia)) as E10.
  pose proof (Hw 1 2 ltac:(lia) ltac:(lia)) as E12.
  pose proof (Hw 1 4 ltac:(lia) ltac:(lia)) as E14.
  pose proof (Hw 2 0 ltac:(lia) ltac:(lia)) as E20.
  pose proof (Hw 2 2 ltac:(lia) ltac:(lia)) as E22.
  pose proof (Hw 2 4 ltac:(lia) ltac:(lia)) as E24.
  pose proof (Hwa 0 ltac:(lia)) as A0.
  pose proof (Hwa 2 ltac:(lia)) as A2.
  pose proof (Hwa 4 ltac:(lia)) as A4.
  repeat match goal with
         | E : word16 b1 ?o = word16 b2 ?o |- context [word16 b1 ?o'] =>
             replace o' with o by lia; rewrite E; clear E
         end.
  repeat (f_equal; try lia).
Qed.

(** X7: The walkmesh decoder reads only the header, the six coordinate bytes of
    each vertex and the access pool: two byte buffers with a header that
    agree at these offsets decode to the same walkmesh, whatever their
    padding bytes, their trailing bytes and their lengths. *)
Theorem parseWalkmesh_reads_only (b1 b2 : list Z) :
  is_bytes b1 -> is_bytes b2 ->
  4 <= walkmesh.length b1 -> 4 <= walkmesh.length b2 ->
  (forall o, walkmesh_offset (word32 b1 0) o -> byte_at b1 o = byte_at b2 o) ->
  walkmesh.parseWalkmesh b1 = walkmesh.parseWalkmesh b2.
Proof.
  intros H1 H2 L1 L2 Hagree.
  assert (Hhead : word32 b2 0 = word32 b1 0).
  { unfold word32.
    rewrite <- !Hagree by (left; lia). reflexivity. }
  pose proof (word32_range b1 H1 0) as Hr.
  set (N := word32 b1 0) in *.
  destruct (Z.eq_dec N 0) as [H0 | Hnz].
  { rewrite !parseWalkmesh_rejected; auto; left; congruence. }
  destruct (Z.lt_ge_cases N (2 ^ 31)) as [Hlow | Hhigh].
  - destruct (Z.lt_ge_cases 10000 N) as [Hbig | Hok].
    { rewrite !parseWalkmesh_rejected; auto; right; lia. }
    rewrite (parseWalkmesh_counted b1 H1 N), (parseWalkmesh_counted b2 H2 N)
      by (assumption || reflexivity || lia).
    f_equal. apply map_ext_in. intros i Hi. apply in_upto in Hi.
    apply triangleAt_agree; try assumption. lia.
  - rewrite (parseWalkmesh_wrapped b1), (parseWalkmesh_wrapped b2);
      try assumption; try lia.
    now rewrite Hhead.
Qed.

Lemma parseWalkmesh_reads_only_witness :
  is_bytes Examples.oneTriangleBuffer /\
  is_bytes MoreExamples.oneTriangleRepadded /\
  Examples.oneTriangleBuffer <> MoreExamples.oneTriangleRepadded /\
  walkmesh.parseWalkmesh Examples.oneTriangleBuffer
  = walkmesh.parseWalkmesh MoreExamples.oneTriangleRepadded.
Proof.
  split; [reflexivity|]. split; [reflexivity|]. split; [discriminate|].
  apply (parseWalkmesh_reads_only Examples.oneTriangleBuffer
                                  MoreExamples.oneTriangleRepadded).
  - reflexivity.
  - reflexivity.
  - vm_compute; discriminate.
  - vm_compute; discriminate.
  - change (word32 Examples.oneTriangleBuffer 0) with 1.
    intros o [Ho | [(i & j & k & Hi & Hj & Hk & ->) | Ho]].
    + assert (Hc : o = 0 \/ o = 1 \/ o = 2 \/ o = 3) by lia.
      destruct Hc as [-> | [-> | [-> | ->]]]; reflexivity.
    + assert (i = 0) by lia. subst i.
      assert (Hc : j = 0 \/ j = 1 \/ j = 2) by lia.
      assert (Hd : k = 0 \/ k = 1 \/ k = 2 \/ k = 3 \/ k = 4 \/ k = 5) by lia.
      destruct Hc as [-> | [-> | ->]];
        destruct Hd as [-> | [-> | [-> | [-> | [-> | ->]]]]]; reflexivity.
    + assert (Hc : o = 28 \/ o = 29 \/ o = 30 \/ o = 31 \/ o = 32 \/ o = 33)
        by lia.
      destruct Hc as [-> | [-> | [-> | [-> | [-> | ->]]]]]; reflexivity.
Defined.

End DecoderReads.

Section GatewayProperties.
Local Open Scope Z_scope.
Import Layout Reads.

Lemma parseGateways_slots (buffer : list Z) :
  is_bytes buffer -> 344 <= walkmesh.length buffer ->
  walkmesh.parseGateways buffer
  = filter slot_kept (map (slot_gateway buffer) (upto 12 0)).
Proof.
  intros Hbytes Hlen. unfold walkmesh.parseGateways.
  destruct (Z.ltb_spec (walkmesh.length buffer) 344); [lia|].
  rewrite for_loop_upto by (cbn; lia).
  rewrite (gateways_fold buffer Hbytes); [reflexivity|].
  intros i Hin. apply in_upto in Hin. lia.
Qed.

(** X8: What the gateway decoder never returns: more than 12 gateways, a field
    identifier of 0 or outside 16 bits, a coordinate outside the signed
    16-bit range, or a gateway whose two vertices have x = y = 0. *)
Theorem parseGateways_invariants (buffer : list Z) :
  is_bytes buffer ->
  (List.length (walkmesh.parseGateways buffer) <= 12)%nat /\
  forall g : walkmesh.Gateway,
    In g (walkmesh.parseGateways buffer) ->
    1 <= walkmesh.fieldId g <= 65535 /\
    vertex_int16 (walkmesh.vertex1 g) /\
    vertex_int16 (walkmesh.vertex2 g) /\
    ~ (walkmesh.x (walkmesh.vertex1 g) = 0 /\
       walkmesh.y (walkmesh.vertex1 g) = 0 /\
       walkmesh.x (walkmesh.vertex2 g) = 0 /\
       walkmesh.y (walkmesh.vertex2 g) = 0).
Proof.
  intros Hbytes.
  destruct (Z.lt_ge_cases (walkmesh.length buffer) 344) as [Hs | Hlen].
  { unfold walkmesh.parseGateways.
    destruct (Z.ltb_spec (walkmesh.length buffer) 344); [|lia].
    split; [cbn; lia | intros g []]. }
  rewrite (parseGateways_slots buffer Hbytes Hlen). split.
  - etransitivity; [apply filter_length_le|].
    now rewrite length_map, length_upto.
  - intros g Hin. apply filter_In in Hin as [Hin Hkept].
    apply in_map_iff in Hin as (i & <- & _).
    unfold slot_kept in Hkept. apply andb_true_iff in Hkept as [Hid Hxy].
    apply negb_true_iff in Hid, Hxy. apply Z.eqb_neq in Hid.
    unfold slot_gateway in *.
    cbn [walkmesh.vertex1 walkmesh.vertex2 walkmesh.fieldId
         walkmesh.x walkmesh.y walkmesh.z] in *.
    pose proof (word16_range buffer Hbytes (slot_offset i + 18)) as Hr.
    split; [lia|].
    split; [repeat split; apply (signed16_int16 buffer _ Hbytes)|].
    split; [repeat split; apply (signed16_int16 buffer _ Hbytes)|].
    intros (E1 & E2 & E3 & E4). rewrite E1, E2, E3, E4 in Hxy.
    discriminate Hxy.
Qed.

Lemma parseGateways_invariants_witness :
  is_bytes Examples.gatewaysBuffer /\
  (List.length (walkmesh.parseGateways Examples.gatewaysBuffer) <= 12)%nat /\
  forall g : walkmesh.Gateway,
    In g (walkmesh.parseGateways Examples.gatewaysBuffer) ->
    1 <= walkmesh.fieldId g <= 65535 /\
    vertex_int16 (walkmesh.vertex1 g) /\
    vertex_int16 (walkmesh.vertex2 g) /\
    ~ (walkmesh.x (walkmesh.vertex1 g) = 0 /\
       walkmesh.y (walkmesh.vertex1 g) = 0 /\
       walkmesh.x (walkmesh.vertex2 g) = 0 /\
       walkmesh.y (walkmesh.vertex2 g) = 0).
Proof.
  split; [reflexivity|].
  apply (parseGateways_invariants Examples.gatewaysBuffer). reflexivity.
Defined.

Lemma slot_gateway_agree (b1 b2 : list Z) (i : Z) :
  0 <= i < 12 ->
  (forall o, gateway_offset o -> byte_at b1 o = byte_at b2 o) ->
  slot_gateway b1 i = slot_gateway b2 i.
Proof.
  intros Hi Hagree.
  assert (Hw : forall k, 0 <= k < 11 \/ k = 18 ->
                 word16 b1 (slot_offset i + k) = word16 b2 (slot_offset i + k)).
  { intros k Hk. unfold word16, slot_offset.
    rewrite (Hagree (56 + i * 24 + k)) by (exists i, k; lia).
    rewrite (Hagree (56 + i * 24 + k + 1)) by (exists i, (k + 1); lia).
    reflexivity. }
  unfold slot_gateway. cbv zeta.
  rewrite <- (Z.add_0_r (slot_offset i)) at 1 8.
  now rewrite !Hw by lia.
Qed.

(** X9: The gateway decoder reads only the twelve coordinate bytes and the two
    field-identifier bytes of each slot: two byte buffers of at least 344
    bytes that agree there decode to the same gateways. *)
Theorem parseGateways_reads_only (b1 b2 : list Z) :
  is_bytes b1 -> is_bytes b2 ->
  344 <= walkmesh.length b1 -> 344 <= walkmesh.length b2 ->
  (forall o, gateway_offset o -> byte_at b1 o = byte_at b2 o) ->
  walkmesh.parseGateways b1 = walkmesh.parseGateways b2.
Proof.
  intros H1 H2 L1 L2 Hagree.
  rewrite (parseGateways_slots b1 H1 L1), (parseGateways_slots b2 H2 L2).
  f_equal. apply map_ext_in. intros i Hi. apply in_upto in Hi.
  apply slot_gateway_agree; [lia | exact Hagree].
Qed.

Lemma parseGateways_reads_only_witness :
  is_bytes Examples.gatewaysBuffer /\
  is_bytes MoreExamples.gatewaysReheaded /\
  Examples.gatewaysBuffer <> MoreExamples.gatewaysReheaded /\
  walkmesh.parseGateways Examples.gatewaysBuffer
  = walkmesh.parseGateways MoreExamples.gatewaysReheaded.
Proof.
  split; [reflexivity|]. split; [reflexivity|].
  split; [vm_compute; discriminate|].
  apply (parseGateways_reads_only Examples.gatewaysBuffer
                                  MoreExamples.gatewaysReheaded).
  - reflexivity.
  - reflexivity.
  - vm_compute; discriminate.
  - vm_compute; discriminate.
  - intros o (i & k & Hi & Hk & ->).
    assert (Hall : forallb
                     (fun o => byte_at Examples.gatewaysBuffer o
                               =? byte_at MoreExamples.gatewaysReheaded o)
                     (upto 288 56) = true) by (vm_compute; reflexivity).
    rewrite forallb_forall in Hall.
    apply Z.eqb_eq, Hall, in_upto. lia.
Defined.

End GatewayProperties.

(** ** Further properties of the bounds *)

Section BoundsProperties.
Local Open Scope Z_scope.
Import Layout Reads.

(** The three axes of a walkmesh with triangles. *)
Lemma bounds_axes (wm : walkmesh.Walkmesh) :
  walkmesh.triangles wm <> [] ->
  axis_bounds walkmesh.x wm
    (walkmesh.minX (walkmesh.calculateWalkmeshBounds wm))
    (walkmesh.maxX (walkmesh.calculateWalkmeshBounds wm))
    (walkmesh.centerX (walkmesh.calculateWalkmeshBounds wm)) /\
  axis_bounds walkmesh.y wm
    (walkmesh.minY (walkmesh.calculateWalkmeshBounds wm))
    (walkmesh.maxY (walkmesh.calculateWalkmeshBounds wm))
    (walkmesh.centerY (walkmesh.calculateWalkmeshBounds wm)) /\
  axis_bounds walkmesh.z wm
    (walkmesh.minZ (walkmesh.calculateWalkmeshBounds wm))
    (walkmesh.maxZ (walkmesh.calculateWalkmeshBounds wm))
    (walkmesh.centerZ (walkmesh.calculateWalkmeshBounds wm)).
Proof.
  intros Hne. unfold walkmesh.calculateWalkmeshBounds.
  destruct (Z.eqb_spec (Z.of_nat (List.length (walkmesh.triangles wm))) 0)
    as [H0 | _].
  { destruct (walkmesh.triangles wm); [congruence | discriminate H0]. }
  cbn [walkmesh.minX walkmesh.maxX walkmesh.minY walkmesh.maxY
       walkmesh.minZ walkmesh.maxZ
       walkmesh.centerX walkmesh.centerY walkmesh.centerZ].
  rewrite fold_boundsTriangle. fold (allVertices wm).
  pose proof (allVertices_nonempty wm Hne) as Hvs.
  repeat split; apply axis_bounds_intro; try assumption;
    first
      [ apply (fold_running_min _ _ (fun _ _ => eq_refl)
                                (allVertices wm) _ []); left; now split
      | apply (fold_running_max _ _ (fun _ _ => eq_refl)
                                (allVertices wm) _ []); left; now split ].
Qed.

Lemma bounds_empty (wm : walkmesh.Walkmesh) :
  walkmesh.triangles wm = [] ->
  walkmesh.calculateWalkmeshBounds wm
  = {| walkmesh.minX := walkmesh.num 0; walkmesh.maxX := walkmesh.num 0;
       walkmesh.minY := walkmesh.num 0; walkmesh.maxY := walkmesh.num 0;
       walkmesh.minZ := walkmesh.num 0; walkmesh.maxZ := walkmesh.num 0;
       walkmesh.centerX := walkmesh.num 0;
       walkmesh.centerY := walkmesh.num 0;
       walkmesh.centerZ := walkmesh.num 0 |}.
Proof.
  intros E. unfold walkmesh.calculateWalkmeshBounds. now rewrite E.
Qed.

Lemma axis_bounds_ordered (coord : walkmesh.WalkmeshVertex -> Z)
      (wm : walkmesh.Walkmesh) (lo hi c : JS.number) :
  axis_bounds coord wm lo hi c -> ordered_axis lo c hi.
Proof.
  intros (m & M & [Hm Hmin] & [HM Hmax] & -> & -> & ->).
  assert (Hle : m <= M) by (apply Hmin, HM).
  exists (inject_Z m), ((inject_Z m + inject_Z M) / 2)%Q, (inject_Z M).
  rewrite Zle_Qle in Hle.
  split; [reflexivity|]. split; [reflexivity|]. split; [reflexivity|].
  generalize dependent (inject_Z M). generalize (inject_Z m).
  intros a b Hab. unfold Qdiv. change (/ 2)%Q with (1 # 2)%Q.
  split; lra.
Qed.

(** X10: The bounds are always finite numbers, never [Infinity] or [NaN], and on
    each axis min <= center <= max. *)
Theorem calculateWalkmeshBounds_ordered (wm : walkmesh.Walkmesh) :
  ordered_axis (walkmesh.minX (walkmesh.calculateWalkmeshBounds wm))
               (walkmesh.centerX (walkmesh.calculateWalkmeshBounds wm))
               (walkmesh.maxX (walkmesh.calculateWalkmeshBounds wm)) /\
  ordered_axis (walkmesh.minY (walkmesh.calculateWalkmeshBounds wm))
               (walkmesh.centerY (walkmesh.calculateWalkmeshBounds wm))
               (walkmesh.maxY (walkmesh.calculateWalkmeshBounds wm)) /\
  ordered_axis (walkmesh.minZ (walkmesh.calculateWalkmeshBounds wm))
               (walkmesh.centerZ (walkmesh.calculateWalkmeshBounds wm))
               (walkmesh.maxZ (walkmesh.calculateWalkmeshBounds wm)).
Proof.
  destruct (walkmesh.triangles wm) as [|tri tris] eqn:E.
  - rewrite (bounds_empty wm E).
    cbn [walkmesh.minX walkmesh.maxX walkmesh.minY walkmesh.maxY
         walkmesh.minZ walkmesh.maxZ
         walkmesh.centerX walkmesh.centerY walkmesh.centerZ].
    assert (H0 : ordered_axis (walkmesh.num 0) (walkmesh.num 0)
                              (walkmesh.num 0)).
    { exists 0%Q, 0%Q, 0%Q.
      split; [reflexivity|]. split; [reflexivity|]. split; [reflexivity|].
      split; apply Qle_refl. }
    repeat split; exact H0.
  - assert (Hne : walkmesh.triangles wm <> []) by (rewrite E; discriminate).
    destruct (bounds_axes wm Hne) as (HX & HY & HZ).
    repeat split; eapply axis_bounds_ordered; eassumption.
Qed.

Lemma is_minimum_unique (m m' : Z) (l l' : list Z) :
  (forall k, In k l <-> In k l') ->
  is_minimum m l -> is_minimum m' l' -> m = m'.
Proof.
  intros Hsame [Hin Hle] [Hin' Hle'].
  apply Hsame in Hin. apply Hsame in Hin'.
  specialize (Hle _ Hin'). specialize (Hle' _ Hin). lia.
Qed.

Lemma is_maximum_unique (m m' : Z) (l l' : list Z) :
  (forall k, In k l <-> In k l') ->
  is_maximum m l -> is_maximum m' l' -> m = m'.
Proof.
  intros Hsame [Hin Hle] [Hin' Hle'].
  apply Hsame in Hin. apply Hsame in Hin'.
  specialize (Hle _ Hin'). specialize (Hle' _ Hin). lia.
Qed.

Lemma axis_bounds_same (coord : walkmesh.WalkmeshVertex -> Z)
      (wm wm' : walkmesh.Walkmesh) (lo hi c lo' hi' c' : JS.number) :
  (forall v, In v (allVertices wm) <-> In v (allVertices wm')) ->
  axis_bounds coord wm lo hi c -> axis_bounds coord wm' lo' hi' c' ->
  lo = lo' /\ hi = hi' /\ c = c'.
Proof.
  intros Hsame (m & M & Hmin & Hmax & -> & -> & ->)
         (m' & M' & Hmin' & Hmax' & -> & -> & ->).
  assert (Hmap : forall k, In k (map coord (allVertices wm))
                           <-> In k (map coord (allVertices wm'))).
  { intros k. rewrite !in_map_iff.
    split; intros (v & <- & Hv); exists v; split; auto; now apply Hsame. }
  rewrite (is_minimum_unique m m' _ _ Hmap Hmin Hmin').
  rewrite (is_maximum_unique M M' _ _ Hmap Hmax Hmax').
  repeat split.
Qed.

(** X11: The bounds depend only on the set of vertices: two walkmeshes with the
    same vertices, in whatever order, multiplicity, grouping into
    triangles, access values and triangle count, have the same bounds. *)
Theorem calculateWalkmeshBounds_vertex_set (wm wm' : walkmesh.Walkmesh) :
  (forall v, In v (allVertices wm) <-> In v (allVertices wm')) ->
  walkmesh.calculateWalkmeshBounds wm = walkmesh.calculateWalkmeshBounds wm'.
Proof.
  intros Hsame.
  destruct (walkmesh.triangles wm) as [|tri tris] eqn:E;
    destruct (walkmesh.triangles wm') as [|tri' tris'] eqn:E'.
  - now rewrite (bounds_empty wm E), (bounds_empty wm' E').
  - exfalso. assert (Hne : walkmesh.triangles wm' <> [])
      by (rewrite E'; discriminate).
    apply allVertices_nonempty in Hne.
    destruct (allVertices wm') as [|v vs] eqn:Ev; [congruence|].
    assert (Hin : In v (allVertices wm)) by (apply Hsame; now left).
    unfold allVertices in Hin. now rewrite E in Hin.
  - exfalso. assert (Hne : walkmesh.triangles wm <> [])
      by (rewrite E; discriminate).
    apply allVertices_nonempty in Hne.
    destruct (allVertices wm) as [|v vs] eqn:Ev; [congruence|].
    assert (Hin : In v (allVertices wm')) by (apply Hsame; now left).
    unfold allVertices in Hin. now rewrite E' in Hin.
  - assert (Hne : walkmesh.triangles wm <> []) by (rewrite E; discriminate).
    assert (Hne' : walkmesh.triangles wm' <> [])
      by (rewrite E'; discriminate).
    destruct (bounds_axes wm Hne) as (HX & HY & HZ).
    destruct (bounds_axes wm' Hne') as (HX' & HY' & HZ').
    destruct (axis_bounds_same _ _ _ _ _ _ _ _ _ Hsame HX HX')
      as (X1 & X2 & X3).
    destruct (axis_bounds_same _ _ _ _ _ _ _ _ _ Hsame HY HY')
      as (Y1 & Y2 & Y3).
    destruct (axis_bounds_same _ _ _ _ _ _ _ _ _ Hsame HZ HZ')
      as (Z1 & Z2 & Z3).
    destruct (walkmesh.calculateWalkmeshBounds wm),
             (walkmesh.calculateWalkmeshBounds wm').
    cbn [walkmesh.minX walkmesh.maxX walkmesh.minY walkmesh.maxY
         walkmesh.minZ walkmesh.maxZ
         walkmesh.centerX walkmesh.centerY walkmesh.centerZ] in *.
    congruence.
Qed.

Lemma calculateWalkmeshBounds_vertex_set_witness :
  (forall v, In v (allVertices Examples.spanning)
             <-> In v (allVertices MoreExamples.spanningRegrouped)) /\
  walkmesh.calculateWalkmeshBounds Examples.spanning
  = walkmesh.calculateWalkmeshBounds MoreExamples.spanningRegrouped.
Proof.
  assert (Hsame : forall v, In v (allVertices Examples.spanning)
                            <-> In v (allVertices
                                        MoreExamples.spanningRegrouped)).
  { intros v. cbn. tauto. }
  split; [exact Hsame|].
  apply (calculateWalkmeshBounds_vertex_set
           Examples.spanning MoreExamples.spanningRegrouped Hsame).
Defined.

Lemma allVertices_vertexOf (wm : walkmesh.Walkmesh)
      (v : walkmesh.WalkmeshVertex) :
  In v (allVertices wm) ->
  exists tri j, In tri (walkmesh.triangles wm) /\ 0 <= j < 3
                /\ v = vertexOf tri j.
Proof.
  unfold allVertices. intros Hin.
  apply in_flat_map in Hin as (tri & Htri & Hv).
  exists tri. unfold walkmesh.vertexList, vertexOf in *.
  destruct (walkmesh.vertices tri) as [[v0 v1] v2].
  destruct Hv as [<- | [<- | [<- | []]]];
    [exists 0 | exists 1 | exists 2]; repeat split; try lia; assumption.
Qed.

(** X12: Decoding then bounding: the six extrema of a decoded walkmesh are
    signed 16-bit integers. *)
Theorem bounds_of_parsed_int16 (buffer : list Z) :
  is_bytes buffer ->
  let b := walkmesh.calculateWalkmeshBounds (walkmesh.parseWalkmesh buffer) in
  int16_number (walkmesh.minX b) /\ int16_number (walkmesh.maxX b) /\
  int16_number (walkmesh.minY b) /\ int16_number (walkmesh.maxY b) /\
  int16_number (walkmesh.minZ b) /\ int16_number (walkmesh.maxZ b).
Proof.
  intros Hbytes. cbv zeta.
  set (wm := walkmesh.parseWalkmesh buffer).
  destruct (walkmesh.triangles wm) as [|tri tris] eqn:E.
  - rewrite (bounds_empty wm E).
    cbn [walkmesh.minX walkmesh.maxX walkmesh.minY walkmesh.maxY
         walkmesh.minZ walkmesh.maxZ].
    assert (H0 : int16_number (walkmesh.num 0))
      by (exists 0; split; [reflexivity | unfold int16; lia]).
    repeat split; exact H0.
  - assert (Hne : walkmesh.triangles wm <> []) by (rewrite E; discriminate).
    assert (Hv : forall v, In v (allVertices wm) -> vertex_int16 v).
    { intros v Hin.
      apply allVertices_vertexOf in Hin as (t & j & Ht & Hj & ->).
      subst wm.
      destruct (parseWalkmesh_shape buffer) as (count & _ & _ & Htris).
      rewrite Htris in Ht. apply in_map_iff in Ht as (i & <- & Hi).
      apply in_upto in Hi.
      apply triangleAt_ranges; try assumption; lia. }
    assert (Hc : forall (coord : walkmesh.WalkmeshVertex -> Z) k,
               (forall v, vertex_int16 v -> int16 (coord v)) ->
               In k (map coord (allVertices wm)) -> int16 k).
    { intros coord k Hcoord Hin.
      apply in_map_iff in Hin as (v & <- & Hin). apply Hcoord, Hv, Hin. }
    destruct (bounds_axes wm Hne)
      as ((mx & Mx & [Hmx _] & [HMx _] & -> & -> & _)
          & (my & My & [Hmy _] & [HMy _] & -> & -> & _)
          & (mz & Mz & [Hmz _] & [HMz _] & -> & -> & _)).
    repeat split; eexists; (split; [reflexivity|]);
      (eapply Hc; [|eassumption]); intros v (Hx & Hy & Hz); assumption.
Qed.

Lemma bounds_of_parsed_int16_witness :
  is_bytes Examples.oneTriangleBuffer /\
  let b := walkmesh.calculateWalkmeshBounds
             (walkmesh.parseWalkmesh Examples.oneTriangleBuffer) in
  int16_number (walkmesh.minX b) /\ int16_number (walkmesh.maxX b) /\
  int16_number (walkmesh.minY b) /\ int16_number (walkmesh.maxY b) /\
  int16_number (walkmesh.minZ b) /\ int16_number (walkmesh.maxZ b).
Proof.
  split; [reflexivity|].
  apply (bounds_of_parsed_int16 Examples.oneTriangleBuffer). reflexivity.
Defined.

End BoundsProperties.

(** ** Further properties of the point location *)

Section ContainmentProperties.
Local Open Scope Q_scope.
Import Geometry.

Variables px py v0x v0y v1x v1y v2x v2y : Q.



End ContainmentProperties.

Section ContainmentWitness.
Local Open Scope Q_scope.
Import Geometry.


End ContainmentWitness.

Section ElevationProperties.
Local Open Scope Q_scope.
Import Geometry Reads.

(** Rounding keeps a number between two integers between them. *)
Lemma Math_round_between (a b : Z) (q : Q) :
  inject_Z a <= q -> q <= inject_Z b ->
  (a <= JS.Math_round q <= b)%Z.
Proof.
  intros Ha Hb. unfold JS.Math_round.
  pose proof (Qfloor_le (q + (1 # 2))) as Hlo.
  pose proof (Qlt_floor (q + (1 # 2))) as Hhi.
  set (n := Qfloor (q + (1 # 2))) in *.
  assert (H1 : inject_Z a < inject_Z (n + 1)) by lra.
  assert (H2 : inject_Z n < inject_Z (b + 1)).
  { rewrite inject_Z_plus. change (inject_Z 1) with 1. lra. }
  rewrite <- Zlt_Qlt in H1, H2. lia.
Qed.

Variables (x y : Q) (tri : walkmesh.WalkmeshTriangle).

(** X15: In a triangle whose area term is nonzero the interpolation gives back
    the elevation of each vertex at that vertex. *)
Theorem calculateZAtPoint_at_vertices :
  1 # 10000 <= Qabs (denominator tri) ->
  let '(v0, v1, v2) := walkmesh.vertices tri in
  Query.calculateZAtPoint (Query.vx v0) (Query.vy v0) tri == Query.vz v0 /\
  Query.calculateZAtPoint (Query.vx v1) (Query.vy v1) tri == Query.vz v1 /\
  Query.calculateZAtPoint (Query.vx v2) (Query.vy v2) tri == Query.vz v2.
Proof.
  intros Hd. pose proof (denominator_apart _ Hd) as Hnz.
  unfold Query.calculateZAtPoint.
  unfold denominator, signedArea in Hd, Hnz.
  destruct (walkmesh.vertices tri) as [[v0 v1] v2].
  apply ltb_ge in Hd. rewrite Hd.
  repeat split; field; exact Hnz.
Qed.

(** For a point the test accepts, the interpolation lies between the lowest
    and the highest elevation of the triangle, whether it uses the weights
    or the average. *)
Lemma calculateZAtPoint_between (lo hi : Z) :
  contains tri x y = true ->
  (let '(v0, v1, v2) := walkmesh.vertices tri in
   (lo <= walkmesh.z v0 /\ lo <= walkmesh.z v1 /\ lo <= walkmesh.z v2 /\
    walkmesh.z v0 <= hi /\ walkmesh.z v1 <= hi /\ walkmesh.z v2 <= hi)%Z) ->
  inject_Z lo <= Query.calculateZAtPoint x y tri /\
  Query.calculateZAtPoint x y tri <= inject_Z hi.
Proof.
  intros Hin Hz.
  destruct (Qlt_le_dec (Qabs (denominator tri)) (1 # 10000)) as [Hdeg | Hok].
  - unfold Query.calculateZAtPoint, Query.vz.
    unfold denominator, signedArea in Hdeg.
    destruct (walkmesh.vertices tri) as [[v0 v1] v2].
    apply ltb_lt in Hdeg. unfold Query.vx, Query.vy in *. rewrite Hdeg.
    destruct Hz as (L0 & L1 & L2 & U0 & U1 & U2).
    rewrite Zle_Qle in L0, L1, L2, U0, U1, U2.
    unfold Qdiv. change (/ 3) with (1 # 3). split; lra.
  - destruct (calculateZAtPoint_weights_exist x y tri Hok)
      as (u0 & u1 & u2 & Hu & ->).
    pose proof (denominator_apart _ Hok) as Hnz.
    assert (Hclosed : exists a b c,
               0 <= a /\ 0 <= b /\ 0 <= c /\ triangle_weights tri x y a b c).
    { unfold contains in Hin. unfold denominator in Hnz.
      unfold triangle_weights.
      destruct (walkmesh.vertices tri) as [[v0 v1] v2].
      exact (inside_closed_triangle _ _ _ _ _ _ _ _ Hnz Hin). }
    destruct Hclosed as (a & b & c & Ha & Hb & Hc & Hw).
    rewrite (interpolate_unique x y tri u0 u1 u2 a b c Hnz Hu Hw).
    unfold triangle_weights, weights in Hw. unfold interpolate, Query.vz.
    destruct (walkmesh.vertices tri) as [[v0 v1] v2].
    destruct Hw as (Hsum & _ & _).
    destruct Hz as (L0 & L1 & L2 & U0 & U1 & U2).
    rewrite Zle_Qle in L0, L1, L2, U0, U1, U2.
    split; nra.
Qed.

End ElevationProperties.

Section ElevationRange.
Local Open Scope Z_scope.
Import Geometry Reads.

(** X16: The elevation the query returns lies between the lowest and the highest
    vertex elevation of the triangle it returns. *)
Theorem findTriangleAtPosition_within_elevations
        (wm : walkmesh.Walkmesh) (x y : Q) (i : nat)
        (tri : walkmesh.WalkmeshTriangle) :
  nth_error (walkmesh.triangles wm) i = Some tri ->
  Query.triangleId (Query.findTriangleAtPosition wm x y) = Z.of_nat i ->
  within_elevations tri (Query.z (Query.findTriangleAtPosition wm x y)).
Proof.
  intros Hnth Hid. unfold Query.findTriangleAtPosition in *.
  destruct (scanFrom_first x y (walkmesh.triangles wm) 0)
    as [(j & tri' & Hnth' & Hin & _ & Hres) | [_ Hres]];
    rewrite Hres in Hid |- *; cbn [Query.triangleId Query.z] in *.
  - rewrite Z.add_0_l in Hid. apply Nat2Z.inj in Hid. subst j.
    rewrite Hnth in Hnth'. injection Hnth' as <-.
    unfold within_elevations.
    pose proof (calculateZAtPoint_between x y tri) as Hb.
    destruct (walkmesh.vertices tri) as [[v0 v1] v2].
    destruct (Hb (Z.min (walkmesh.z v0)
                        (Z.min (walkmesh.z v1) (walkmesh.z v2)))
                 (Z.max (walkmesh.z v0)
                        (Z.max (walkmesh.z v1) (walkmesh.z v2)))
                 Hin ltac:(lia)) as [Hlo Hhi].
    now apply Math_round_between.
  - lia.
Qed.

Lemma findTriangleAtPosition_within_elevations_witness :
  nth_error (walkmesh.triangles Examples.slopeMesh) 0 = Some Examples.slope /\
  Query.triangleId (Query.findTriangleAtPosition Examples.slopeMesh 2 7)
  = 0 /\
  within_elevations
    Examples.slope
    (Query.z (Query.findTriangleAtPosition Examples.slopeMesh 2 7)).
Proof.
  split; [reflexivity|]. split; [reflexivity|].
  apply (findTriangleAtPosition_within_elevations
           Examples.slopeMesh 2 7 O Examples.slope); reflexivity.
Defined.

Lemma calculateZAtPoint_at_vertices_witness :
  (1 # 10000 <= Qabs (denominator Examples.slope))%Q /\
  let '(v0, v1, v2) := walkmesh.vertices Examples.slope in
  (Query.calculateZAtPoint (Query.vx v0) (Query.vy v0) Examples.slope
   == Query.vz v0)%Q /\
  (Query.calculateZAtPoint (Query.vx v1) (Query.vy v1) Examples.slope
   == Query.vz v1)%Q /\
  (Query.calculateZAtPoint (Query.vx v2) (Query.vy v2) Examples.slope
   == Query.vz v2)%Q.
Proof.
  split; [discriminate|].
  apply (calculateZAtPoint_at_vertices Examples.slope). discriminate.
Defined.

(** X17: Decoding then querying: on a decoded walkmesh the index returned is -1
    or below 10000, and the elevation returned is a signed 16-bit
    integer. *)
Theorem query_of_parsed_int16 (buffer : list Z) (x y : Q) :
  Layout.is_bytes buffer ->
  let r := Query.findTriangleAtPosition (walkmesh.parseWalkmesh buffer) x y in
  -1 <= Query.triangleId r < 10000 /\ int16 (Query.z r).
Proof.
  intros Hbytes. cbv zeta. unfold Query.findTriangleAtPosition.
  set (wm := walkmesh.parseWalkmesh buffer).
  destruct (scanFrom_first x y (walkmesh.triangles wm) 0)
    as [(j & tri & Hnth & Hin & _ & Hres) | [_ Hres]];
    rewrite Hres; cbn [Query.triangleId Query.z].
  - assert (Hlt : (j < List.length (walkmesh.triangles wm))%nat)
      by (apply nth_error_Some; congruence).
    destruct (parseWalkmesh_at_most_10000_aux buffer) as [Hlen _].
    fold wm in Hlen. split; [lia|].
    pose proof (calculateZAtPoint_between x y tri) as Hb.
    assert (Htri : In tri (walkmesh.triangles wm))
      by (eapply nth_error_In; eassumption).
    pose proof (parseWalkmesh_ranges_aux buffer tri 0 Hbytes Htri
                                         ltac:(lia)) as [(_ & _ & R0) _].
    pose proof (parseWalkmesh_ranges_aux buffer tri 1 Hbytes Htri
                                         ltac:(lia)) as [(_ & _ & R1) _].
    pose proof (parseWalkmesh_ranges_aux buffer tri 2 Hbytes Htri
                                         ltac:(lia)) as [(_ & _ & R2) _].
    unfold Layout.vertexOf in R0, R1, R2.
    destruct (walkmesh.vertices tri) as [[v0 v1] v2].
    cbn [Z.eqb Pos.eqb] in R0, R1, R2. unfold int16 in *.
    destruct (Hb (-32768) 32767 Hin ltac:(lia)) as [Hlo Hhi].
    now apply Math_round_between.
  - unfold int16. lia.
Qed.

Lemma query_of_parsed_int16_witness :
  Layout.is_bytes Examples.oneTriangleBuffer /\
  let r := Query.findTriangleAtPosition
             (walkmesh.parseWalkmesh Examples.oneTriangleBuffer) 2 3 in
  -1 <= Query.triangleId r < 10000 /\ int16 (Query.z r).
Proof.
  split; [reflexivity|].
  apply (query_of_parsed_int16 Examples.oneTriangleBuffer 2 3). reflexivity.
Defined.

End ElevationRange.

(** ** The arrays of the mesh component *)

Section MeshArrays.
Local Open Scope Z_scope.
Import Layout MeshSpec.

Lemma upto_app (n m : nat) (i : Z) :
  upto (n + m) i = upto n i ++ upto m (i + Z.of_nat n).
Proof.
  revert i. induction n as [|n IH]; intros i.
  - cbn. now rewrite Z.add_0_r.
  - cbn [Nat.add upto app]. rewrite IH. do 3 f_equal. lia.
Qed.

Lemma length_flat_map_const {A B : Type} (f : A -> list B) (k : nat)
      (l : list A) :
  (forall a, List.length (f a) = k) ->
  List.length (flat_map f l) = (k * List.length l)%nat.
Proof.
  intros Hf. induction l as [|a l IH]; cbn [flat_map List.length].
  - lia.
  - rewrite length_app, Hf, IH. lia.
Qed.

Lemma length_vertexList (tri : walkmesh.WalkmeshTriangle) :
  List.length (walkmesh.vertexList tri) = 3%nat.
Proof.
  unfold walkmesh.vertexList.
  now destruct (walkmesh.vertices tri) as [[v0 v1] v2].
Qed.

(** One triangle through the surface loop. *)
Lemma geometryTriangle_arrays (a : WalkmeshMesh.MeshArrays)
      (tri : walkmesh.WalkmeshTriangle) :
  let r := WalkmeshMesh.geometryTriangle a tri in
  WalkmeshMesh.positions r
  = WalkmeshMesh.positions a
      ++ flat_map WalkmeshMesh.scene (walkmesh.vertexList tri) /\
  WalkmeshMesh.indices r
  = WalkmeshMesh.indices a ++ upto 3 (WalkmeshMesh.vertexIndex a) /\
  List.length (WalkmeshMesh.colors r)
  = (List.length (WalkmeshMesh.colors a) + 9)%nat /\
  WalkmeshMesh.vertexIndex r = WalkmeshMesh.vertexIndex a + 3.
Proof.
  unfold WalkmeshMesh.geometryTriangle, walkmesh.vertexList.
  destruct (walkmesh.vertices tri) as [[v0 v1] v2].
  cbn [fold_left WalkmeshMesh.geometryVertex WalkmeshMesh.positions
       WalkmeshMesh.indices WalkmeshMesh.colors WalkmeshMesh.vertexIndex
       flat_map upto].
  unfold WalkmeshMesh.push, WalkmeshMesh.scene.
  repeat split.
  - now rewrite <- !app_assoc.
  - do 4 f_equal; lia.
  - rewrite !length_app. cbn [List.length]. lia.
Qed.

Lemma geometry_fold (tris : list walkmesh.WalkmeshTriangle) :
  forall a : WalkmeshMesh.MeshArrays,
    let r := fold_left WalkmeshMesh.geometryTriangle tris a in
    WalkmeshMesh.positions r
    = WalkmeshMesh.positions a
        ++ flat_map WalkmeshMesh.scene (flat_map walkmesh.vertexList tris) /\
    WalkmeshMesh.indices r
    = WalkmeshMesh.indices a
        ++ upto (3 * List.length tris) (WalkmeshMesh.vertexIndex a) /\
    List.length (WalkmeshMesh.colors r)
    = (List.length (WalkmeshMesh.colors a) + 9 * List.length tris)%nat.
Proof.
  induction tris as [|tri tris IH]; intros a; cbn [fold_left].
  - cbn. rewrite !app_nil_r. repeat split; lia.
  - destruct (geometryTriangle_arrays a tri) as (Hp & Hi & Hc & Hv).
    destruct (IH (WalkmeshMesh.geometryTriangle a tri)) as (Hp' & Hi' & Hc').
    cbv zeta in *. rewrite Hp', Hi', Hc', Hp, Hi, Hc, Hv.
    repeat split.
    + cbn [flat_map]. now rewrite flat_map_app, <- app_assoc.
    + replace (3 * List.length (tri :: tris))%nat
        with (3 + 3 * List.length tris)%nat by (cbn [List.length]; lia).
      now rewrite upto_app, <- app_assoc.
    + cbn [List.length]. lia.
Qed.

(** X18: The surface geometry lists the vertices triangle by triangle with the
    axes exchanged, gives every colour array the length of the position
    array, and indexes the vertices 0, 1, 2, ... in order: every index
    refers to a stored vertex. *)
Theorem geometry_arrays (wm : walkmesh.Walkmesh) :
  let g := WalkmeshMesh.geometry wm in
  WalkmeshMesh.positions g = flat_map WalkmeshMesh.scene (allVertices wm) /\
  WalkmeshMesh.indices g
  = upto (3 * List.length (walkmesh.triangles wm)) 0 /\
  List.length (WalkmeshMesh.colors g)
  = List.length (WalkmeshMesh.positions g) /\
  forall idx, In idx (WalkmeshMesh.indices g) ->
              valid_index (WalkmeshMesh.positions g) idx.
Proof.
  unfold WalkmeshMesh.geometry.
  destruct (geometry_fold (walkmesh.triangles wm)
              {| WalkmeshMesh.positions := []; WalkmeshMesh.indices := [];
                 WalkmeshMesh.colors := []; WalkmeshMesh.vertexIndex := 0 |})
    as (Hp & Hi & Hc).
  cbv zeta in *. cbn [WalkmeshMesh.positions WalkmeshMesh.indices
                      WalkmeshMesh.colors WalkmeshMesh.vertexIndex app
                      List.length Nat.add] in *.
  assert (Hlen : List.length (flat_map WalkmeshMesh.scene (allVertices wm))
                 = (9 * List.length (walkmesh.triangles wm))%nat).
  { rewrite (length_flat_map_const WalkmeshMesh.scene 3)
      by reflexivity.
    unfold allVertices.
    rewrite (length_flat_map_const walkmesh.vertexList 3)
      by apply length_vertexList.
    lia. }
  fold (allVertices wm) in Hp. rewrite Hp, Hi, Hc.
  split; [reflexivity|]. split; [reflexivity|].
  split; [now rewrite Hlen|].
  intros idx Hin. apply in_upto in Hin.
  unfold valid_index. rewrite Hlen. lia.
Qed.

End MeshArrays.

Section EdgeArrays.
Local Open Scope Z_scope.
Import Layout MeshSpec.

Lemma edgeTriangle_segments (positions : list Z)
      (tri : walkmesh.WalkmeshTriangle) :
  WalkmeshMesh.edgeTriangle positions tri
  = positions ++ flat_map segment (edgesOf tri).
Proof.
  unfold WalkmeshMesh.edgeTriangle, edgesOf, vertexOf, accessOf, segment.
  destruct (walkmesh.vertices tri) as [[v0 v1] v2].
  destruct (walkmesh.access tri) as [[a0 a1] a2].
  unfold WalkmeshMesh.push. cbn [map flat_map Z.eqb Pos.eqb].
  change ((0 + 1) mod 3) with 1. change ((1 + 1) mod 3) with 2.
  change ((2 + 1) mod 3) with 0. cbn [Z.eqb Pos.eqb].
  now rewrite app_nil_r, <- !app_assoc.
Qed.

Lemma blockedTriangle_segments (positions : list Z)
      (tri : walkmesh.WalkmeshTriangle) :
  WalkmeshMesh.blockedTriangle positions tri
  = positions ++ flat_map segment (filter blocked (edgesOf tri)).
Proof.
  unfold WalkmeshMesh.blockedTriangle, edgesOf, vertexOf, accessOf.
  destruct (walkmesh.vertices tri) as [[v0 v1] v2].
  destruct (walkmesh.access tri) as [[a0 a1] a2].
  unfold WalkmeshMesh.push. cbn [map Z.eqb Pos.eqb].
  change ((0 + 1) mod 3) with 1. change ((1 + 1) mod 3) with 2.
  change ((2 + 1) mod 3) with 0. cbn [Z.eqb Pos.eqb filter blocked].
  change 0xffff with 0xFFFF.
  destruct (a0 =? 0xFFFF), (a1 =? 0xFFFF), (a2 =? 0xFFFF);
    cbn [flat_map segment]; now rewrite ?app_nil_r, <- ?app_assoc.
Qed.

Lemma fold_segments (step : list Z -> walkmesh.WalkmeshTriangle -> list Z)
      (f : walkmesh.WalkmeshTriangle
           -> list (walkmesh.WalkmeshVertex * walkmesh.WalkmeshVertex * Z)) :
  (forall positions tri,
      step positions tri = positions ++ flat_map segment (f tri)) ->
  forall tris positions,
    fold_left step tris positions
    = positions ++ flat_map segment (flat_map f tris).
Proof.
  intros Hstep tris. induction tris as [|tri tris IH]; intros positions;
    cbn [fold_left flat_map].
  - now rewrite app_nil_r.
  - now rewrite IH, Hstep, flat_map_app, <- app_assoc.
Qed.

(** X19: The wireframe draws, for every triangle, the segment of each edge e
    from vertex e to vertex (e + 1) mod 3; the blocked-edge overlay draws
    exactly those of these segments whose access value e is 0xFFFF, in the
    same order. *)
Theorem blockedEdgeGeometry_edges (wm : walkmesh.Walkmesh) :
  WalkmeshMesh.edgeGeometry wm
  = flat_map segment (flat_map edgesOf (walkmesh.triangles wm)) /\
  WalkmeshMesh.blockedEdgeGeometry wm
  = flat_map segment
             (filter blocked (flat_map edgesOf (walkmesh.triangles wm))).
Proof.
  unfold WalkmeshMesh.edgeGeometry, WalkmeshMesh.blockedEdgeGeometry. split.
  - now rewrite (fold_segments _ edgesOf edgeTriangle_segments).
  - rewrite (fold_segments _ (fun tri => filter blocked (edgesOf tri))
                           blockedTriangle_segments).
    cbn [app]. f_equal.
    induction (walkmesh.triangles wm) as [|tri tris IH]; cbn [flat_map].
    + reflexivity.
    + now rewrite filter_app, IH.
Qed.

End EdgeArrays.

Section QuadArrays.
Local Open Scope Z_scope.
Import Layout MeshSpec.

Lemma quadVertex_invariant (a : WalkmeshMesh.QuadArrays)
      (v : walkmesh.WalkmeshVertex) (k : nat) :
  quads_invariant a k -> quads_invariant (WalkmeshMesh.quadVertex a v) (S k).
Proof.
  intros (Hp & Hi & Hv & Hidx).
  unfold quads_invariant, WalkmeshMesh.quadVertex, WalkmeshMesh.push.
  cbn [WalkmeshMesh.quadPositions WalkmeshMesh.quadIndices
       WalkmeshMesh.quadVertexIndex].
  rewrite !length_app, Hp, Hi, Hv. cbn [List.length].
  split; [lia|]. split; [lia|]. split; [lia|].
  intros idx Hin.
  apply in_app_or in Hin as [Hin | Hin];
    [apply in_app_or in Hin as [Hin | Hin]|].
  - specialize (Hidx idx Hin). lia.
  - cbn [In] in Hin. lia.
  - cbn [In] in Hin. lia.
Qed.

Lemma quads_fold (gateways : list walkmesh.Gateway) :
  forall (a : WalkmeshMesh.QuadArrays) (k : nat),
    quads_invariant a k ->
    quads_invariant (fold_left WalkmeshMesh.quadGateway gateways a)
                    (k + 2 * List.length gateways).
Proof.
  induction gateways as [|g gateways IH]; intros a k Hinv; cbn [fold_left].
  - cbn [List.length]. now replace (k + 2 * 0)%nat with k by lia.
  - replace (k + 2 * List.length (g :: gateways))%nat
      with (S (S k) + 2 * List.length gateways)%nat
      by (cbn [List.length]; lia).
    apply IH. unfold WalkmeshMesh.quadGateway. cbn [fold_left].
    now do 2 apply quadVertex_invariant.
Qed.

(** X20: The gateway markers: two quads per gateway, that is 24 position numbers
    and 12 indices, and every index refers to a stored corner. *)
Theorem gatewayQuadsGeometry_arrays (gateways : list walkmesh.Gateway) :
  let g := WalkmeshMesh.gatewayQuadsGeometry gateways in
  List.length (WalkmeshMesh.quadPositions g)
  = (24 * List.length gateways)%nat /\
  List.length (WalkmeshMesh.quadIndices g)
  = (12 * List.length gateways)%nat /\
  forall idx, In idx (WalkmeshMesh.quadIndices g) ->
              valid_index (WalkmeshMesh.quadPositions g) idx.
Proof.
  cbv zeta. unfold WalkmeshMesh.gatewayQuadsGeometry.
  assert (H0 : quads_invariant
                 {| WalkmeshMesh.quadPositions := [];
                    WalkmeshMesh.quadIndices := [];
                    WalkmeshMesh.quadVertexIndex := 0 |} 0).
  { split; [reflexivity|]. split; [reflexivity|]. split; [reflexivity|].
    intros idx []. }
  destruct (quads_fold gateways _ _ H0) as (Hp & Hi & _ & Hidx).
  split; [rewrite Hp; lia|]. split; [rewrite Hi; lia|].
  intros idx Hin. specialize (Hidx idx Hin).
  unfold valid_index. rewrite Hp. lia.
Qed.

End QuadArrays.

(** ** Labels and position updates *)

Section Labels.
Local Open Scope Q_scope.
Import Geometry MeshSpec.





End Labels.

Section PositionUpdates.
Local Open Scope Q_scope.
Import Geometry.

Lemma Math_round_integer (n : Z) (q : Q) :
  q == inject_Z n -> JS.Math_round q = n.
Proof.
  intros Hq.
  assert (H : (n <= JS.Math_round q <= n)%Z)
    by (apply Math_round_between; rewrite Hq; apply Qle_refl).
  lia.
Qed.

(** X22: A model with integer x and y that is released where it was placed
    reports its own x and y: the rounding and the exchange of axes of the
    update undo the placement [model.x, model.z, -model.y]. *)
Theorem sendPositionUpdate_unmoved
        (wm : walkmesh.Walkmesh) (index : Z) (model : Types.FieldModel)
        (a b : Z) :
  Types.x model = inject_Z a -> Types.y model = inject_Z b ->
  WalkmeshMesh.sendPositionUpdate
    wm index (Some (WalkmeshMesh.groupPosition model))
  = Some {| WalkmeshMesh.index := index;
            WalkmeshMesh.newX := a;
            WalkmeshMesh.newY := b;
            WalkmeshMesh.newZ :=
              Query.z (Query.findTriangleAtPosition
                         wm (inject_Z a) (inject_Z b));
            WalkmeshMesh.triangleId :=
              Query.triangleId (Query.findTriangleAtPosition
                                  wm (inject_Z a) (inject_Z b)) |}.
Proof.
  intros Hx Hy.
  unfold WalkmeshMesh.sendPositionUpdate, WalkmeshMesh.groupPosition.
  rewrite Hx, Hy.
  rewrite (Math_round_integer a) by reflexivity.
  rewrite (Math_round_integer b) by apply Qopp_involutive.
  reflexivity.
Qed.

Lemma sendPositionUpdate_unmoved_witness :
  Types.x ComponentExamples.npc = inject_Z 2 /\
  Types.y ComponentExamples.npc = inject_Z 7 /\
  WalkmeshMesh.sendPositionUpdate
    Examples.slopeMesh 1
    (Some (WalkmeshMesh.groupPosition ComponentExamples.npc))
  = Some {| WalkmeshMesh.index := 1;
            WalkmeshMesh.newX := 2;
            WalkmeshMesh.newY := 7;
            WalkmeshMesh.newZ :=
              Query.z (Query.findTriangleAtPosition
                         Examples.slopeMesh (inject_Z 2) (inject_Z 7));
            WalkmeshMesh.triangleId :=
              Query.triangleId (Query.findTriangleAtPosition
                                  Examples.slopeMesh (inject_Z 2)
                                  (inject_Z 7)) |}.
Proof.
  split; [reflexivity|]. split; [reflexivity|].
  apply (sendPositionUpdate_unmoved Examples.slopeMesh 1
                                    ComponentExamples.npc 2 7);
    reflexivity.
Defined.

(** X23: Whatever the camera zoom is (0, NaN and the infinities included), the
    label sprites are scaled by a finite factor between 15 and 100. *)
Theorem spriteScale_clamped (cameraZoom : JS.number) :
  exists s : Q,
    WalkmeshMesh.spriteScale cameraZoom = JS.Num s /\ 15 <= s /\ s <= 100.
Proof.
  assert (Hclamp : forall r : Q,
             exists s : Q,
               JS.Math_max WalkmeshMesh.MIN_SPRITE_SCALE
                 (JS.Math_min WalkmeshMesh.MAX_SPRITE_SCALE (JS.Num r))
               = JS.Num s /\ 15 <= s /\ s <= 100).
  { intros r. unfold WalkmeshMesh.MIN_SPRITE_SCALE,
                     WalkmeshMesh.MAX_SPRITE_SCALE.
    cbn [JS.Math_min].
    destruct (Qle_bool 100 r) eqn:E1; cbn [JS.Math_max].
    - exists 100. split; [reflexivity|]. split; discriminate.
    - destruct (Qle_bool 15 r) eqn:E2.
      + exists r. split; [reflexivity|]. split.
        * now apply Qle_bool_iff.
        * apply Qlt_le_weak, Qnot_le_lt. intros H.
          apply Qle_bool_iff in H. congruence.
      + exists 15. split; [reflexivity|]. split; discriminate. }
  unfold WalkmeshMesh.spriteScale, WalkmeshMesh.BASE_SPRITE_SCALE,
         JSNum.or_else.
  destruct cameraZoom as [p | | |]; cbn [JSNum.truthy].
  - destruct (Qeq_bool p 0) eqn:E; cbn [negb JSNum.div].
    + apply Hclamp.
    + rewrite E. apply Hclamp.
  - apply Hclamp.
  - apply Hclamp.
  - apply Hclamp.
Qed.

End PositionUpdates.

(** ** The viewer component *)

Section MapDimensions.
Local Open Scope Q_scope.
Import Layout.

(** X24: The width and the height of the map are finite and not negative, and
    the viewer's loaded condition (width > 0) holds exactly when two
    vertices of the walkmesh differ in x: never for a walkmesh without
    triangles, nor for one whose vertices all have the same x. *)
Theorem mapDimensions_loads (wm : walkmesh.Walkmesh) :
  let d := WalkmeshViewer.mapDimensions (WalkmeshViewer.bounds (Some wm)) in
  (exists w h : Q,
      WalkmeshViewer.width d = JS.Num w /\
      WalkmeshViewer.height d = JS.Num h /\ 0 <= w /\ 0 <= h) /\
  (WalkmeshViewer.loads d = true <->
   exists u v : walkmesh.WalkmeshVertex,
     In u (allVertices wm) /\ In v (allVertices wm) /\
     walkmesh.x u <> walkmesh.x v).
Proof.
  cbv zeta.
  unfold WalkmeshViewer.bounds, WalkmeshViewer.mapDimensions,
         WalkmeshViewer.loads, WalkmeshViewer.SCALE.
  cbn [WalkmeshViewer.width WalkmeshViewer.height].
  destruct (walkmesh.triangles wm) as [|tri tris] eqn:E.
  - rewrite (bounds_empty wm E).
    cbn [walkmesh.minX walkmesh.maxX walkmesh.minY walkmesh.maxY].
    split.
    + exists ((0 - 0) * 1), ((0 - 0) * 1).
      split; [reflexivity|]. split; [reflexivity|]. split; discriminate.
    + split; [discriminate|].
      intros (u & v & Hu & _). unfold allVertices in Hu.
      rewrite E in Hu. destruct Hu.
  - assert (Hne : walkmesh.triangles wm <> []) by (rewrite E; discriminate).
    destruct (bounds_axes wm Hne)
      as ((mx & Mx & [Hmx Hminx] & [HMx Hmaxx] & -> & -> & _)
          & (my & My & [Hmy Hminy] & [HMy Hmaxy] & -> & -> & _) & _).
    unfold walkmesh.num. cbn [JSNum.sub JSNum.mul JSNum.gt].
    assert (Hx : (mx <= Mx)%Z) by (apply Hminx, HMx).
    assert (Hy : (my <= My)%Z) by (apply Hminy, HMy).
    split.
    + eexists _, _. split; [reflexivity|]. split; [reflexivity|].
      rewrite Zle_Qle in Hx, Hy. split; lra.
    + rewrite ltb_lt. split.
      * intros Hpos.
        assert (Hlt : (mx < Mx)%Z) by (rewrite Zlt_Qlt; lra).
        apply in_map_iff in Hmx as (u & Eu & Hu).
        apply in_map_iff in HMx as (v & Ev & Hv).
        exists u, v. repeat split; try assumption. lia.
      * intros (u & v & Hu & Hv & Hdiff).
        assert (Hlt : (mx < Mx)%Z).
        { pose proof (Hminx _ (in_map walkmesh.x _ _ Hu)).
          pose proof (Hminx _ (in_map walkmesh.x _ _ Hv)).
          pose proof (Hmaxx _ (in_map walkmesh.x _ _ Hu)).
          pose proof (Hmaxx _ (in_map walkmesh.x _ _ Hv)).
          lia. }
        rewrite Zlt_Qlt in Hlt. lra.
Qed.

End MapDimensions.

Section Frustum.
Local Open Scope Q_scope.

Lemma Qeq_bool_pos (q : Q) : 0 < q -> Qeq_bool q 0 = false.
Proof.
  intros Hq. destruct (Qeq_bool q 0) eqn:E; [|reflexivity].
  apply Qeq_bool_iff in E. rewrite E in Hq. discriminate Hq.
Qed.

Lemma Qdiv_pos (a b : Q) : 0 < a -> 0 < b -> 0 < a / b.
Proof.
  intros Ha Hb. apply Qlt_shift_div_l; [exact Hb|]. lra.
Qed.

Lemma Math_max_500 (m : Q) :
  exists r : Q,
    JS.Math_max (JS.Num m) (JS.Num 500) = JS.Num r /\ m <= r /\ 500 <= r.
Proof.
  cbn [JS.Math_max]. destruct (Qle_bool m 500) eqn:E.
  - exists 500. apply Qle_bool_iff in E.
    split; [reflexivity|]. split; [exact E | apply Qle_refl].
  - exists m. split; [reflexivity|]. split; [apply Qle_refl|].
    apply Qlt_le_weak, Qnot_le_lt. intros H.
    apply Qle_bool_iff in H. congruence.
Qed.

(** X25: For a container and a map of positive width the camera frustum is
    finite and symmetric, has the aspect ratio of the container, and is
    large enough to hold the whole map. *)
Theorem frustum_fits (clientWidth clientHeight mapWidth mapHeight : Q) :
  0 < clientWidth -> 0 < clientHeight -> 0 < mapWidth -> 0 <= mapHeight ->
  exists halfWidth halfHeight : Q,
    WalkmeshViewer.frustum (JS.Num clientWidth) (JS.Num clientHeight)
                           (JS.Num mapWidth) (JS.Num mapHeight)
    = {| WalkmeshViewer.left := JS.Num (- halfWidth);
         WalkmeshViewer.right := JS.Num halfWidth;
         WalkmeshViewer.top := JS.Num halfHeight;
         WalkmeshViewer.bottom := JS.Num (- halfHeight) |} /\
    halfWidth == halfHeight * (clientWidth / clientHeight) /\
    mapWidth <= 2 * halfWidth /\ mapHeight <= 2 * halfHeight.
Proof.
  intros Hcw Hch Hmw Hmh.
  pose proof (Qdiv_pos _ _ Hcw Hch) as HcA.
  set (cA := clientWidth / clientHeight) in *.
  destruct (Math_max_500 mapHeight) as (Hh & EHh & Hh1 & Hh2).
  destruct (Math_max_500 mapWidth) as (Hw & EHw & Hw1 & Hw2).
  unfold WalkmeshViewer.frustum. rewrite EHh, EHw.
  cbn [JSNum.div JS.add].
  rewrite (Qeq_bool_pos clientHeight Hch).
  change (Qeq_bool 2 0) with false. cbv iota. fold cA.
  set (hh0 := Hh / 2 + 200). set (hw0 := Hw / 2 + 200).
  assert (Hhh0 : mapHeight <= 2 * hh0 /\ 0 < hh0).
  { subst hh0. unfold Qdiv. change (/ 2) with (1 # 2). split; lra. }
  assert (Hhw0 : mapWidth <= 2 * hw0 /\ 0 < hw0).
  { subst hw0. unfold Qdiv. change (/ 2) with (1 # 2). split; lra. }
  assert (Helse :
            exists halfWidth halfHeight : Q,
              {| WalkmeshViewer.left := JSNum.neg (JS.Num hw0);
                 WalkmeshViewer.right := JS.Num hw0;
                 WalkmeshViewer.top := JSNum.div (JS.Num hw0) (JS.Num cA);
                 WalkmeshViewer.bottom :=
                   JSNum.neg (JSNum.div (JS.Num hw0) (JS.Num cA)) |}
              = {| WalkmeshViewer.left := JS.Num (- halfWidth);
                   WalkmeshViewer.right := JS.Num halfWidth;
                   WalkmeshViewer.top := JS.Num halfHeight;
                   WalkmeshViewer.bottom := JS.Num (- halfHeight) |} /\
              halfWidth == halfHeight * cA /\
              mapWidth <= 2 * halfWidth /\
              (0 < mapHeight -> cA <= mapWidth / mapHeight ->
               mapHeight <= 2 * halfHeight) /\ 0 <= halfHeight).
  { exists hw0, (hw0 / cA). cbn [JSNum.div JSNum.neg].
    rewrite (Qeq_bool_pos cA HcA).
    split; [reflexivity|].
    assert (Hq : hw0 / cA * cA == hw0) by (field; lra).
    split; [now rewrite Hq|]. split; [apply Hhw0|].
    pose proof (Qdiv_pos _ _ (proj2 Hhw0) HcA) as Hqpos.
    split; [|lra].
    intros Hpos Hle.
    assert (Hr : mapWidth / mapHeight * mapHeight == mapWidth)
      by (field; lra).
    set (q := hw0 / cA) in *. set (r := mapWidth / mapHeight) in *.
    destruct Hhw0 as [Hfit _]. nra. }
  destruct (Qeq_bool mapHeight 0) eqn:Ez.
  - (* a flat map: the aspect of the map is Infinity *)
    unfold JSNum.scaled. rewrite (Qeq_bool_pos mapWidth Hmw).
    replace (JS.ltb mapWidth 0) with false
      by (symmetry; apply ltb_ge; lra).
    cbn [JSNum.or_else JSNum.truthy JSNum.gt].
    destruct Helse as (hw & hh & E & H1 & H2 & _ & H4).
    exists hw, hh. split; [exact E|]. split; [exact H1|].
    split; [exact H2|]. apply Qeq_bool_iff in Ez. rewrite Ez. lra.
  - assert (Hpos : 0 < mapHeight).
    { apply Qle_lteq in Hmh as [Hlt | Heq]; [exact Hlt|].
      symmetry in Heq. apply Qeq_eq_bool in Heq. congruence. }
    pose proof (Qdiv_pos _ _ Hmw Hpos) as Hr.
    unfold JSNum.or_else. cbn [JSNum.truthy].
    rewrite (Qeq_bool_pos _ Hr). cbn [negb JSNum.gt].
    destruct (JS.ltb (mapWidth / mapHeight) cA) eqn:Eg.
    + apply ltb_lt in Eg.
      exists (hh0 * cA), hh0. cbn [JSNum.mul JSNum.neg].
      split; [reflexivity|]. split; [reflexivity|].
      split; [|apply Hhh0].
      assert (Hrm : mapWidth / mapHeight * mapHeight == mapWidth)
        by (field; lra).
      set (r := mapWidth / mapHeight) in *.
      destruct Hhh0 as [Hfit _]. nra.
    + apply ltb_ge in Eg.
      destruct Helse as (hw & hh & E & H1 & H2 & H3 & _).
      exists hw, hh. split; [exact E|]. split; [exact H1|].
      split; [exact H2|]. now apply H3.
Qed.

End Frustum.

Section FrustumWitness.
Local Open Scope Q_scope.

Lemma frustum_fits_witness :
  0 < 800 /\ 0 < 600 /\ 0 < 1000 /\ 0 <= 400 /\
  exists halfWidth halfHeight : Q,
    WalkmeshViewer.frustum (JS.Num 800) (JS.Num 600)
                           (JS.Num 1000) (JS.Num 400)
    = {| WalkmeshViewer.left := JS.Num (- halfWidth);
         WalkmeshViewer.right := JS.Num halfWidth;
         WalkmeshViewer.top := JS.Num halfHeight;
         WalkmeshViewer.bottom := JS.Num (- halfHeight) |} /\
    halfWidth == halfHeight * (800 / 600) /\
    1000 <= 2 * halfWidth /\ 400 <= 2 * halfHeight.
Proof.
  split; [reflexivity|]. split; [reflexivity|]. split; [reflexivity|].
  split; [discriminate|].
  apply (frustum_fits 800 600 1000 400);
    [reflexivity | reflexivity | reflexivity | discriminate].
Defined.

End FrustumWitness.

(** ** The application component *)

Section AppState.
Local Open Scope Z_scope.

(** What one event does to the walkmesh, the gateways and the loading
    flag. *)
Lemma listener_effect (payload : option App.Payload.FieldWalkmeshData)
      (s : App.State) :
  App.walkmesh (App.listener payload s)
  = match payload with
    | Some data =>
        match App.nonEmpty (App.Payload.walkmeshBuffer data) with
        | Some b => Some (walkmesh.parseWalkmesh b)
        | None => App.walkmesh s
        end
    | None => App.walkmesh s
    end /\
  App.gateways (App.listener payload s)
  = match payload with
    | Some data =>
        match App.nonEmpty (App.Payload.gatewaysBuffer data) with
        | Some b => walkmesh.parseGateways b
        | None => App.gateways s
        end
    | None => App.gateways s
    end /\
  App.isLoading (App.listener payload s)
  = match payload with
    | Some data =>
        match App.nonEmpty (App.Payload.walkmeshBuffer data) with
        | Some b => false
        | None => App.isLoading s
        end
    | None => App.isLoading s
    end.
Proof.
  destruct payload as [data|]; [|repeat split].
  unfold App.listener.
  destruct (App.nonEmpty (App.Payload.walkmeshBuffer data));
    destruct (App.nonEmpty (App.Payload.gatewaysBuffer data));
    destruct (App.Payload.fieldModels data);
    destruct (App.Payload.fieldName data) as [n|];
    try destruct (String.eqb n String.EmptyString);
    destruct (App.Payload.fieldId data) as [i|];
    try destruct (i =? 0);
    repeat split.
Qed.

Lemma after_snoc (events : list (option App.Payload.FieldWalkmeshData))
      (payload : option App.Payload.FieldWalkmeshData) :
  App.after (events ++ [payload]) = App.listener payload (App.after events).
Proof.
  unfold App.after. now rewrite fold_left_app.
Qed.


(** X27: After any sequence of events the walkmesh shown is the decoding of the
    last walkmesh buffer that arrived non-empty, and the gateways shown are
    the decoding of the last gateway buffer that arrived non-empty, which
    may come from an earlier event than the walkmesh: an event with an
    empty or missing gateway buffer leaves the previous gateways in
    place. *)
Theorem after_last_buffers
        (events : list (option App.Payload.FieldWalkmeshData)) :
  App.walkmesh (App.after events)
  = option_map walkmesh.parseWalkmesh
               (App.lastNonEmpty App.Payload.walkmeshBuffer events) /\
  App.gateways (App.after events)
  = match App.lastNonEmpty App.Payload.gatewaysBuffer events with
    | Some b => walkmesh.parseGateways b
    | None => []
    end.
Proof.
  unfold App.lastNonEmpty.
  induction events as [|payload events [IHw IHg]] using rev_ind.
  - split; reflexivity.
  - rewrite after_snoc, rev_unit.
    destruct (listener_effect payload (App.after events)) as (Hw & Hg & _).
    rewrite Hw, Hg. cbn [App.firstNonEmpty].
    destruct payload as [data|]; [|split; assumption].
    split.
    + destruct (App.nonEmpty (App.Payload.walkmeshBuffer data));
        [reflexivity | exact IHw].
    + destruct (App.nonEmpty (App.Payload.gatewaysBuffer data));
        [reflexivity | exact IHg].
Qed.

End AppState.
